(** * Progressive-overload calculator: load estimation and progression engine

    A shallow embedding of [src/lib/rpe_progression.ts], [src/lib/zones.ts]
    and of the [POST] handler of the progressive-overload route, followed by
    the properties of the engine.

    Numbers.  A JavaScript [number] is a binary64 floating-point number.
    [num] holds its value: a rational, one of the two infinities, or NaN;
    the sign of zero is not kept (a zero divisor counts as [+0]).  Division
    by zero, NaN propagation, the comparison rules and truthiness follow
    ECMAScript.  The functions are embedded in two readings.

    - The top-level definitions and those of [Route], [Legacy] and
      [Calories] compute on [num] exactly.  They give the formulas in real
      arithmetic, and carry the properties that rounding does not disturb:
      table lookups, comparisons, monotonicity, nearest multiples.

    - [F64] embeds [rpe_progression.ts] and the handler with every
      operation and every decimal literal rounded to binary64, as the
      engine computes them.  It carries the properties that depend on the
      computed values: which set is selected, which weight is emitted,
      whether an estimate is zero.

    Payloads.  A request is the JSON body decoded at its declared
    TypeScript type; an optional field is an [option], and every number is
    a binary64 number.  A body outside that type can make the handler
    throw, which it answers with status 500; such bodies are outside the
    embedding.  The host's clock and time zone are an explicit argument of
    the handler. *)

From Stdlib Require Import QArith Qabs Qround Qminmax Qpower Qreduction.
From Stdlib Require Import Lqa Lia ZArith List String Bool.
From Stdlib Require Import Ascii Decimal DecimalString Sorted.
Import ListNotations.
Open Scope Q_scope.

(* ================================================================= *)
(** ** JavaScript numbers *)

Module JS.

Inductive num : Type :=
| Fin (q : Q)
| PInf
| NInf
| NaN.

Declare Scope num_scope.
Delimit Scope num_scope with num.
Bind Scope num_scope with num.

Coercion Fin : Q >-> num.

(** Numeric equality on [num]: [Fin] values are compared as rationals. *)
Definition num_eq (a b : num) : Prop :=
  match a, b with
  | Fin x, Fin y => x == y
  | PInf, PInf | NInf, NInf | NaN, NaN => True
  | _, _ => False
  end.

Definition Qltb (x y : Q) : bool := negb (Qle_bool y x).

Definition neg (a : num) : num :=
  match a with
  | Fin x => Fin (- x)
  | PInf => NInf
  | NInf => PInf
  | NaN => NaN
  end.

Definition add (a b : num) : num :=
  match a, b with
  | Fin x, Fin y => Fin (x + y)
  | NaN, _ | _, NaN => NaN
  | PInf, NInf | NInf, PInf => NaN
  | PInf, _ | _, PInf => PInf
  | NInf, _ | _, NInf => NInf
  end.

Definition sub (a b : num) : num := add a (neg b).

(** Sign of a rational: [Gt] positive, [Eq] zero, [Lt] negative. *)
Definition Qsign (x : Q) : comparison := Qcompare x 0.

Definition inf_of_sign (s : comparison) : num :=
  match s with Gt => PInf | Lt => NInf | Eq => NaN end.

Definition flip (s : comparison) : comparison := CompOpp s.

Definition mul (a b : num) : num :=
  match a, b with
  | Fin x, Fin y => Fin (x * y)
  | NaN, _ | _, NaN => NaN
  | PInf, Fin y | Fin y, PInf => inf_of_sign (Qsign y)
  | NInf, Fin y | Fin y, NInf => inf_of_sign (flip (Qsign y))
  | PInf, PInf | NInf, NInf => PInf
  | PInf, NInf | NInf, PInf => NInf
  end.

(** [x / 0] is [+Infinity], [-Infinity] or [NaN] by the sign of [x]. *)
Definition div (a b : num) : num :=
  match a, b with
  | Fin x, Fin y =>
      if Qeq_bool y 0 then inf_of_sign (Qsign x) else Fin (x / y)
  | NaN, _ | _, NaN => NaN
  | Fin _, PInf | Fin _, NInf => Fin 0
  | PInf, Fin y => if Qltb y 0 then NInf else PInf
  | NInf, Fin y => if Qltb y 0 then PInf else NInf
  | _, _ => NaN
  end.

(** [a < b]; every comparison with NaN is false. *)
Definition lt (a b : num) : bool :=
  match a, b with
  | NaN, _ | _, NaN => false
  | Fin x, Fin y => Qltb x y
  | NInf, NInf => false
  | NInf, _ => true
  | _, PInf => match a with PInf => false | _ => true end
  | _, _ => false
  end.

Definition le (a b : num) : bool :=
  match a, b with
  | NaN, _ | _, NaN => false
  | Fin x, Fin y => Qle_bool x y
  | NInf, _ => true
  | _, PInf => true
  | _, _ => false
  end.

Definition gt (a b : num) : bool := lt b a.
Definition ge (a b : num) : bool := le b a.

(** [Math.max] and [Math.min]: NaN if either argument is NaN. *)
Definition max (a b : num) : num :=
  match a, b with
  | NaN, _ | _, NaN => NaN
  | _, _ => if lt a b then b else a
  end.

Definition min (a b : num) : num :=
  match a, b with
  | NaN, _ | _, NaN => NaN
  | _, _ => if lt b a then b else a
  end.

Definition abs (a : num) : num :=
  match a with
  | Fin x => Fin (Qabs x)
  | PInf | NInf => PInf
  | NaN => NaN
  end.

(** [Math.round]: the nearest integer, a tie going to the larger one. *)
Definition Qround_half_up (x : Q) : Z := Qfloor (x + (1 # 2)).

Definition round (a : num) : num :=
  match a with
  | Fin x => Fin (inject_Z (Qround_half_up x))
  | _ => a
  end.

(** Truthiness of a number: [0] and [NaN] are falsy. *)
Definition truthy (a : num) : bool :=
  match a with
  | Fin x => negb (Qeq_bool x 0)
  | PInf | NInf => true
  | NaN => false
  end.

(** [Number(x.toFixed(d))]: [|x|] rounded to [d] decimals, a tie going up,
    with the sign of [x]; magnitudes from [10^21] on are printed in full
    and so come back unchanged. *)
Definition Qpow10 (d : nat) : Q := inject_Z (10 ^ Z.of_nat d).

Definition QtoFixed (d : nat) (x : Q) : Q :=
  if Qle_bool (Qpow10 21) (Qabs x) then x
  else
    let m := inject_Z (Qfloor (Qabs x * Qpow10 d + (1 # 2))) / Qpow10 d in
    if Qltb x 0 then - m else m.

Definition toFixed (d : nat) (a : num) : num :=
  match a with
  | Fin x => Fin (QtoFixed d x)
  | _ => a
  end.

(** SameValueZero, the key equality of [Map]. *)
Definition same_value_zero (a b : num) : bool :=
  match a, b with
  | Fin x, Fin y => Qeq_bool x y
  | PInf, PInf | NInf, NInf | NaN, NaN => true
  | _, _ => false
  end.

(** A [Map<number, V>]: entries in insertion order. *)
Definition Map (V : Type) : Type := list (num * V).

Fixpoint Map_get {V : Type} (m : Map V) (k : num) : option V :=
  match m with
  | [] => None
  | (k', v) :: m' => if same_value_zero k' k then Some v else Map_get m' k
  end.

Definition Map_keys {V : Type} (m : Map V) : list num := List.map fst m.

(** [keys.sort((a, b) => b - a)]: a stable sort into descending order. *)
Fixpoint insert_desc (k : num) (l : list num) : list num :=
  match l with
  | [] => [k]
  | y :: l' => if gt (sub y k) (Fin 0) then y :: insert_desc k l' else k :: l
  end.

Definition sort_desc (l : list num) : list num :=
  fold_right insert_desc [] l.

(** [a ?? d] on an optional value. *)
Definition nullish {A : Type} (a : option A) (d : A) : A :=
  match a with Some v => v | None => d end.

End JS.

Import JS.
Notation "a + b" := (add a b) : num_scope.
Notation "a - b" := (sub a b) : num_scope.
Notation "a * b" := (mul a b) : num_scope.
Notation "a / b" := (div a b) : num_scope.
Notation "a <? b" := (lt a b) : num_scope.
Notation "a <=? b" := (le a b) : num_scope.
Notation "a >? b" := (gt a b) : num_scope.
Notation "a >=? b" := (ge a b) : num_scope.
Infix "=n=" := num_eq (at level 70, no associativity).

(* ================================================================= *)
(** ** [src/lib/rpe_progression.ts] *)

(** NSCA base row: RPE -> %1RM for one repetition. *)
Definition NSCA_BASE_ROW : Map num :=
  [ (Fin 10, Fin 100);
    (Fin 9.5, Fin 97.8);
    (Fin 9, Fin 95.5);
    (Fin 8.5, Fin 93.9);
    (Fin 8, Fin 92.2);
    (Fin 7.5, Fin 90.7);
    (Fin 7, Fin 89.2);
    (Fin 6.5, Fin 87.8) ].

Definition rpe_row (p10 p95 p9 p85 p8 p75 p7 p65 : Q) : Map num :=
  [ (Fin 10, Fin p10);
    (Fin 9.5, Fin p95);
    (Fin 9, Fin p9);
    (Fin 8.5, Fin p85);
    (Fin 8, Fin p8);
    (Fin 7.5, Fin p75);
    (Fin 7, Fin p7);
    (Fin 6.5, Fin p65) ].

(** RPE table: reps (1-12) x RPE (6.5-10) -> %1RM. *)
Definition RPE_TABLE : Map (Map num) :=
  [ (Fin 1,  rpe_row 100  97.8 95.5 93.9 92.2 90.7 89.2 87.8);
    (Fin 2,  rpe_row 95.5 93.9 92.2 90.7 89.2 87.8 86.4 85);
    (Fin 3,  rpe_row 92.2 90.7 89.2 87.8 86.4 85   83.7 82.4);
    (Fin 4,  rpe_row 89.2 87.8 86.4 85   83.7 82.4 81.1 79.8);
    (Fin 5,  rpe_row 86.3 85   83.7 82.4 81.1 79.9 78.6 77.4);
    (Fin 6,  rpe_row 83.7 82.4 81.1 79.9 78.6 77.4 76.2 75.1);
    (Fin 7,  rpe_row 81.1 79.9 78.6 77.4 76.2 75.1 73.9 72.3);
    (Fin 8,  rpe_row 78.6 77.4 76.2 75.1 73.9 72.3 70.7 69.4);
    (Fin 9,  rpe_row 76.2 75.1 73.9 72.3 70.7 69.4 68   66.7);
    (Fin 10, rpe_row 73.9 72.3 70.7 69.4 68   66.7 65.3 64);
    (Fin 11, rpe_row 70.7 69.4 68   66.7 65.3 64   62.6 61.3);
    (Fin 12, rpe_row 68   66.7 65.3 64   62.6 61.3 59.9 58.6) ].

(** Epley's formula: [weight * (1 + (reps + RIR) / 30)]. *)
Definition e1rmPerformance (weight reps RIR : num) : num :=
  (weight * (Fin 1 + (reps + RIR) / Fin 30))%num.

(** The search loop shared by [e1rmPerceived] and [getPercentFromRPETable]:
    one step keeps the current key unless the new one is strictly closer. *)
Definition closest_step (clampedRPE : num) (st : num * num) (rpeVal : num)
  : num * num :=
  let '(closestRPE, minDiff) := st in
  let diff := abs (clampedRPE - rpeVal) in
  if (diff <? minDiff)%num then (rpeVal, diff) else (closestRPE, minDiff).

(** [closestRPE] after the loop; [None] stands for [undefined], the value
    of [availableRPEs[0]] on an empty array. *)
Definition closestRPE_of (clampedRPE : num) (availableRPEs : list num)
  : option num :=
  match availableRPEs with
  | [] => None
  | first :: _ =>
      Some (fst (fold_left (closest_step clampedRPE) availableRPEs
                   (first, abs (clampedRPE - first))))
  end.

Definition Map_get_opt {V : Type} (m : Map V) (k : option num) : option V :=
  match k with Some k' => Map_get m k' | None => None end.

(** [e1rmPerceived], up to [basePercent]: the base-row percentage at the
    key nearest to the clamped RPE. *)
Definition perceived_basePercent (RIR : num) (baseRow : Map num) : num :=
  let RPE := (Fin 10 - RIR)%num in
  let clampedRPE := max (Fin 6.5) (min (Fin 10) RPE) in
  let availableRPEs := sort_desc (Map_keys baseRow) in
  let closestRPE := closestRPE_of clampedRPE availableRPEs in
  nullish (Map_get_opt baseRow closestRPE) (Fin 100).

(** [e1rmPerceived], up to [adjustedPercent]. *)
Definition perceived_adjustedPercent (reps RIR : num)
  (baseRow : Map num) (perRirDropPct : num) : num :=
  let basePercent := perceived_basePercent RIR baseRow in
  let additionalReps := max (Fin 0) (reps - Fin 1) in
  (basePercent - additionalReps * perRirDropPct)%num.

Definition e1rmPerceived (weight reps RIR : num)
  (baseRow : Map num) (perRirDropPct : num) : num :=
  let adjustedPercent :=
    perceived_adjustedPercent reps RIR baseRow perRirDropPct in
  (weight / adjustedPercent * Fin 100)%num.

Definition getPercentFromRPETable (reps RPE : num) : num :=
  let clampedReps := max (Fin 1) (min (Fin 12) (round reps)) in
  let clampedRPE := max (Fin 6.5) (min (Fin 10) RPE) in
  match Map_get RPE_TABLE clampedReps with
  | None => Fin 75
  | Some repsMap =>
      let availableRPEs := sort_desc (Map_keys repsMap) in
      let closestRPE := closestRPE_of clampedRPE availableRPEs in
      nullish (Map_get_opt repsMap closestRPE) (Fin 75)
  end.

Definition loadFromBaselineUsingPercent
  (baseline1RM targetReps targetRIR roundIncrement : num) : num :=
  let targetRPE := (Fin 10 - targetRIR)%num in
  let basePercent := getPercentFromRPETable targetReps targetRPE in
  let loadKg := (baseline1RM * basePercent / Fin 100)%num in
  (round (loadKg / roundIncrement) * roundIncrement)%num.

(* ================================================================= *)
(** ** [src/lib/zones.ts] *)

Module Zones.

Inductive TrainingGoal : Type := STRENGTH | HYPERTROPHY | ENDURANCE.

Record ZonePreset : Type := {
  low : num;
  high : num;
  defaultReps : num;
  targetRIR : num;
  sets : nat;
  restTime : string
}.

Definition ZONE_PRESETS (zone : TrainingGoal) : ZonePreset :=
  match zone with
  | STRENGTH =>
      {| low := Fin 1; high := Fin 5; defaultReps := Fin 3; targetRIR := Fin 2;
         sets := 3; restTime := "2 minutes 30 seconds" |}
  | HYPERTROPHY =>
      {| low := Fin 6; high := Fin 12; defaultReps := Fin 8; targetRIR := Fin 2;
         sets := 3; restTime := "1 minute 30 seconds" |}
  | ENDURANCE =>
      {| low := Fin 12; high := Fin 20; defaultReps := Fin 15; targetRIR := Fin 2;
         sets := 3; restTime := "45 seconds" |}
  end.

(** [targetReps] is optional; [!targetReps] also holds for [0] and [NaN]. *)
Definition clampToZoneReps (zone : TrainingGoal) (targetReps : option num) : num :=
  let preset := ZONE_PRESETS zone in
  match targetReps with
  | None => defaultReps preset
  | Some t =>
      if negb (truthy t) then defaultReps preset
      else max (low preset) (min (high preset) t)
  end.

Definition isInTopOfRange (reps RIR : num) (zone : TrainingGoal) : bool :=
  let preset := ZONE_PRESETS zone in
  (reps >=? high preset)%num && (RIR <=? targetRIR preset)%num.

Definition isBelowRange (reps RIR : num) (zone : TrainingGoal) : bool :=
  let preset := ZONE_PRESETS zone in
  (reps <? low preset)%num || (RIR >? targetRIR preset + Fin 1)%num.

End Zones.

Import Zones.

(* ================================================================= *)
(** ** The system clock: [new Date()], [setDate], [toISOString]

    The handler reads the host's clock once and moves it one day forward
    in local time.  A host is the time value [new Date()] reads (ms since
    the epoch, UTC) and the offset of its time zone, ECMAScript's
    [LocalTZA(t, isUTC)] in ms: at the UTC instant [t] when [isUTC] holds,
    at the local time [t] otherwise.  A time value beyond 8.64e15 ms is not
    a date: [toISOString] throws on it. *)

Module Clock.

Record Host : Type := {
  now : Z;
  LocalTZA : Z -> bool -> Z
}.

Definition msPerDay : Z := 86400000%Z.

Definition maxTime : Z := 8640000000000000%Z.

Definition Day (t : Z) : Z := (t / msPerDay)%Z.

Definition TimeWithinDay (t : Z) : Z := (t mod msPerDay)%Z.

Definition LocalTime (host : Host) (t : Z) : Z := (t + LocalTZA host t true)%Z.

Definition UTC (host : Host) (t : Z) : Z := (t - LocalTZA host t false)%Z.

(** [MakeDate(day, time)] *)
Definition MakeDate (day time : Z) : Z := (day * msPerDay + time)%Z.

(** [TimeClip]: [None] stands for the NaN of an invalid date. *)
Definition TimeClip (t : Z) : option Z :=
  if (Z.abs t <=? maxTime)%Z then Some t else None.

(** [tomorrow.setDate(tomorrow.getDate() + 1)]: with [t] the local time,
    [MakeDay(YearFromTime(t), MonthFromTime(t), DateFromTime(t) + 1)] is the
    day after [Day(t)]; the time within the day is kept and the result is
    taken back to UTC and clipped. *)
Definition setDate_next (host : Host) : option Z :=
  let t := LocalTime host (now host) in
  let newDate := MakeDate (Day t + 1) (TimeWithinDay t) in
  TimeClip (UTC host newDate).

(** Year, month and day of a day number counted from 1970-01-01. *)
Definition civil_from_days (z : Z) : Z * Z * Z :=
  (let z := z + 719468 in
   let era := z / 146097 in
   let doe := z - era * 146097 in
   let yoe := (doe - doe / 1460 + doe / 36524 - doe / 146096) / 365 in
   let y := yoe + era * 400 in
   let doy := doe - (365 * yoe + yoe / 4 - yoe / 100) in
   let mp := (5 * doy + 2) / 153 in
   let d := doy - (153 * mp + 2) / 5 + 1 in
   let m := if mp <? 10 then mp + 3 else mp - 9 in
   (if m <=? 2 then y + 1 else y, m, d))%Z.

Definition show_Z (n : Z) : string := NilZero.string_of_uint (N.to_uint (Z.to_N n)).

Fixpoint zeros (k : nat) : string :=
  match k with O => EmptyString | S k' => String "0"%char (zeros k') end.

Definition pad (w : nat) (n : Z) : string :=
  let s := show_Z n in
  (zeros (w - String.length s) ++ s)%string.

(** The year of an ISO date: four digits from 0 to 9999, otherwise a sign
    and six digits. *)
Definition show_year (y : Z) : string :=
  if ((0 <=? y) && (y <=? 9999))%Z then pad 4 y
  else ((if (y <? 0)%Z then "-" else "+") ++ pad 6 (Z.abs y))%string.

(** [t.toISOString().split("T")[0]]: the UTC date of a valid time value. *)
Definition isoDate (t : Z) : string :=
  let '(y, m, d) := civil_from_days (Day t) in
  (show_year y ++ "-" ++ pad 2 m ++ "-" ++ pad 2 d)%string.

End Clock.

(* ================================================================= *)
(** ** The route handler: payloads and steps

    Request and response are the typed payloads of the handler.  Template
    strings are kept as the values they interpolate: [targetPercentRange]
    as the pair (low, high), [targetReps] as the number, [notes] as goal,
    baseline to one decimal and unit.  The steps of [POST] are given here
    in real arithmetic; the handler itself is [F64.POST]. *)

Module Route.

Inductive WeightUnit : Type := lbs | kg.

Definition Goal : Type := TrainingGoal.

Module In.
Record PreviousSet : Type := {
  weight : num;
  reps : num;
  rir : option num
}.

Record PreviousExerciseInstance : Type := {
  id : option string;
  name : string;
  group : option string;
  sets : list PreviousSet
}.

(** [exerciseInstances] is [None] when the field is not an array. *)
Record PreviousWorkout : Type := {
  date : option string;
  split : option string;
  goal : option Goal;
  exerciseInstances : option (list PreviousExerciseInstance)
}.

Record CalculateRequest : Type := {
  previousWorkout : option PreviousWorkout;
  weightUnit : option WeightUnit
}.
End In.

Definition roundToNearest25lbs (lbs : num) : num :=
  (round (lbs / Fin 2.5) * Fin 2.5)%num.

Definition toLbs (value : num) (unit : WeightUnit) : num :=
  match unit with kg => (value * Fin 2.2046226218)%num | lbs => value end.

Definition fromLbs (valueLbs : num) (unit : WeightUnit) : num :=
  match unit with kg => (valueLbs / Fin 2.2046226218)%num | lbs => valueLbs end.

(** The selected set: [{ ...s, rir }], later extended with [rpe]. *)
Record TopSet : Type := {
  ts_weight : num;
  ts_reps : num;
  ts_rir : num
}.

Record TopSetRpe : Type := {
  top : TopSet;
  rpe : num
}.

(** One pass of the top-set loop over [(topSet, maxEpleyScore)]. *)
Definition topSet_step (st : option TopSet * num) (s : In.PreviousSet)
  : option TopSet * num :=
  let '(topSet, maxEpleyScore) := st in
  let rir := nullish (In.rir s) (Fin 2) in
  let epleyScore := e1rmPerformance (In.weight s) (In.reps s) rir in
  if (epleyScore >? maxEpleyScore)%num
  then (Some {| ts_weight := In.weight s; ts_reps := In.reps s; ts_rir := rir |},
        epleyScore)
  else (topSet, maxEpleyScore).

Definition findTopSet (sets : list In.PreviousSet) : option TopSet :=
  fst (fold_left topSet_step sets (None, Fin 0)).

(** An element of [exercises]; the fields absent from the early return are
    [None]. *)
Record Analysed : Type := {
  a_id : option string;
  a_name : string;
  a_group : option string;
  a_topSet : option TopSetRpe;
  a_estimated1RM : num;
  a_perceived1RM : num;
  a_currentBaseline : option num;
  a_rpeChartPercent : option num
}.

Definition perRirDropPct : num := Fin 2.

Definition analyse (ex : In.PreviousExerciseInstance) : Analysed :=
  match findTopSet (In.sets ex) with
  | None =>
      {| a_id := In.id ex; a_name := In.name ex; a_group := In.group ex;
         a_topSet := None; a_estimated1RM := Fin 0; a_perceived1RM := Fin 0;
         a_currentBaseline := None; a_rpeChartPercent := None |}
  | Some topSet =>
      let estimated1RM :=
        e1rmPerformance (ts_weight topSet) (ts_reps topSet) (ts_rir topSet) in
      let perceived1RM :=
        e1rmPerceived (ts_weight topSet) (ts_reps topSet) (ts_rir topSet)
          NSCA_BASE_ROW perRirDropPct in
      let currentBaseline := perceived1RM in
      let rpe := (Fin 10 - ts_rir topSet)%num in
      let rpeChartPercent := getPercentFromRPETable (ts_reps topSet) rpe in
      {| a_id := In.id ex; a_name := In.name ex; a_group := In.group ex;
         a_topSet := Some {| top := topSet; rpe := rpe |};
         a_estimated1RM := estimated1RM; a_perceived1RM := perceived1RM;
         a_currentBaseline := Some currentBaseline;
         a_rpeChartPercent := Some rpeChartPercent |}
  end.

Definition roundIncrement : num := Fin 2.5.

(** [plannedWeight] as first assigned, from the baseline. *)
Definition plannedWeight_base (goal : Goal) (currentBaseline : num) : num :=
  let zonePreset := ZONE_PRESETS goal in
  let targetReps := clampToZoneReps goal (Some (defaultReps zonePreset)) in
  let targetRIR := targetRIR zonePreset in
  loadFromBaselineUsingPercent currentBaseline targetReps targetRIR roundIncrement.

(** The progressive-overload adjustment of [plannedWeight]. *)
Definition overloadAdjust (inTopOfRange belowRange : bool) (plannedWeight : num)
  : num :=
  if inTopOfRange then max roundIncrement (plannedWeight + roundIncrement)%num
  else if belowRange then max roundIncrement (plannedWeight - roundIncrement)%num
  else plannedWeight.

Definition plannedWeight_adjusted (goal : Goal) (topSet : TopSet)
  (currentBaseline : num) : num :=
  let inTopOfRange := isInTopOfRange (ts_reps topSet) (ts_rir topSet) goal in
  let belowRange := isBelowRange (ts_reps topSet) (ts_rir topSet) goal in
  overloadAdjust inTopOfRange belowRange (plannedWeight_base goal currentBaseline).

(** [finalWeight]: to pounds, rounded to 2.5 lbs, back to the unit. *)
Definition finalWeight (unit : WeightUnit) (plannedWeight : num) : num :=
  let plannedLbs := toLbs plannedWeight unit in
  let roundedLbs := roundToNearest25lbs plannedLbs in
  fromLbs roundedLbs unit.

Module Out.
Record Notes : Type := {
  zone : Goal;
  perceived : num;
  unit : WeightUnit
}.

Record RecommendedSet : Type := {
  setIndex : nat;
  weight : num;
  reps : num;
  targetRPE : num;
  percentOf1RM : num;
  notes : Notes
}.

Record Recommended : Type := {
  targetPercentRange : num * num;
  targetReps : num;
  sets : list RecommendedSet
}.

Record RecommendedExercise : Type := {
  id : option string;
  name : string;
  group : option string;
  perceived1RM : num;
  estimated1RM : num;
  topSetRPE : num;
  recommended : Recommended
}.

Record NewWorkout : Type := {
  date : string;
  split : string;
  goal : Goal;
  status : string;
  exerciseInstances : list RecommendedExercise
}.

Record DetailTopSet : Type := {
  d_weight : num;
  d_reps : num;
  d_rir : num;
  d_rpe : num
}.

Record DetailExercise : Type := {
  d_name : string;
  d_topSet : DetailTopSet;
  d_perceived1RM : num;
  d_estimated1RM : num;
  d_rpeChartPercent : num
}.

Record Details : Type := {
  exercises : list DetailExercise
}.

(** Status 200, 400, and the 500 of the [catch] branch. *)
Inductive Response : Type :=
| Ok (newWorkout : NewWorkout) (details : Details)
| BadRequest (error : string)
| ServerError (error details : string).
End Out.

(** The empty recommendation returned when [!ex.topSet || !ex.currentBaseline]. *)
Definition emptyRecommendation (goal : Goal) (ex : Analysed)
  : Out.RecommendedExercise :=
  let zonePreset := ZONE_PRESETS goal in
  {| Out.id := a_id ex; Out.name := a_name ex; Out.group := a_group ex;
     Out.perceived1RM := Fin 0; Out.estimated1RM := Fin 0;
     Out.topSetRPE := Fin 0;
     Out.recommended :=
       {| Out.targetPercentRange := (low zonePreset, high zonePreset);
          Out.targetReps := defaultReps zonePreset;
          Out.sets := [] |} |}.

(** [Array.from({ length: n }).map((_, idx) => f idx)] *)
Definition array_from_map {A : Type} (n : nat) (f : nat -> A) : list A :=
  List.map f (seq 0 n).

Definition recommend (unit : WeightUnit) (goal : Goal) (ex : Analysed)
  : Out.RecommendedExercise :=
  let zonePreset := ZONE_PRESETS goal in
  match a_topSet ex, a_currentBaseline ex with
  | Some topSetRpe, Some currentBaseline =>
      if negb (truthy currentBaseline) then emptyRecommendation goal ex
      else
        let topSet := top topSetRpe in
        let targetReps := clampToZoneReps goal (Some (defaultReps zonePreset)) in
        let targetRIR := targetRIR zonePreset in
        let plannedWeight := plannedWeight_adjusted goal topSet currentBaseline in
        let finalWeight := finalWeight unit plannedWeight in
        let newSets :=
          array_from_map (Zones.sets zonePreset) (fun idx =>
            ((idx + 1)%nat, toFixed 2 finalWeight, targetReps, targetRIR,
             {| Out.zone := goal; Out.perceived := toFixed 1 currentBaseline;
                Out.unit := unit |})) in
        {| Out.id := a_id ex; Out.name := a_name ex; Out.group := a_group ex;
           Out.perceived1RM := toFixed 2 (a_perceived1RM ex);
           Out.estimated1RM := toFixed 2 (a_estimated1RM ex);
           Out.topSetRPE := rpe topSetRpe;
           Out.recommended :=
             {| Out.targetPercentRange := (low zonePreset, high zonePreset);
                Out.targetReps := targetReps;
                Out.sets :=
                  List.map (fun '(setIndex, weight, reps, rir, notes) =>
                    {| Out.setIndex := setIndex;
                       Out.weight := weight;
                       Out.reps := reps;
                       Out.targetRPE := (Fin 10 - rir)%num;
                       Out.percentOf1RM :=
                         toFixed 1 (weight / a_perceived1RM ex * Fin 100)%num;
                       Out.notes := notes |}) newSets |} |}
  | _, _ => emptyRecommendation goal ex
  end.

Definition detail (ex : Analysed) : Out.DetailExercise :=
  {| Out.d_name := a_name ex;
     Out.d_topSet :=
       {| Out.d_weight := nullish (option_map (fun t => ts_weight (top t)) (a_topSet ex)) (Fin 0);
          Out.d_reps := nullish (option_map (fun t => ts_reps (top t)) (a_topSet ex)) (Fin 0);
          Out.d_rir := nullish (option_map (fun t => ts_rir (top t)) (a_topSet ex)) (Fin 0);
          Out.d_rpe := nullish (option_map rpe (a_topSet ex)) (Fin 0) |};
     Out.d_perceived1RM := a_perceived1RM ex;
     Out.d_estimated1RM := a_estimated1RM ex;
     Out.d_rpeChartPercent := nullish (a_rpeChartPercent ex) (Fin 0) |}.

End Route.

Import Route.
Open Scope string_scope.
Open Scope list_scope.
Open Scope Q_scope.

(* ================================================================= *)
(** ** The earlier progressive-overload handler

    The earlier version of the route: integer RPE chart, the larger of the
    perceived and Epley estimates over all sets, a fixed intensity per
    goal.  Its [roundToNearest25lbs], [toLbs] and [fromLbs] are the ones of
    the current handler. *)

Module Legacy.

Definition RPE_PERCENT : Map num :=
  [ (Fin 10, Fin 1.0);
    (Fin 9, Fin 0.97);
    (Fin 8, Fin 0.92);
    (Fin 7, Fin 0.87);
    (Fin 6, Fin 0.83);
    (Fin 5, Fin 0.79) ].

Definition GOAL_INTENSITY (goal : Goal) : num :=
  match goal with
  | STRENGTH => Fin 0.925
  | HYPERTROPHY => Fin 0.75
  | ENDURANCE => Fin 0.575
  end.

Definition GOAL_REPS (goal : Goal) : num :=
  match goal with
  | STRENGTH => Fin 5
  | HYPERTROPHY => Fin 10
  | ENDURANCE => Fin 15
  end.

Definition GOAL_SETS (goal : Goal) : nat :=
  match goal with
  | STRENGTH => 3
  | HYPERTROPHY => 4
  | ENDURANCE => 3
  end%nat.

(** The global [isFinite] on a number. *)
Definition isFinite (a : num) : bool :=
  match a with Fin _ => true | _ => false end.

Definition rpeFromRIR (rir : num) : num :=
  let r := (Fin 10 - (if isFinite rir then rir else Fin 2))%num in
  if (r >=? Fin 10)%num then Fin 10
  else if (r <=? Fin 5)%num then Fin 5
  else round r.

Definition percentFromRPE (rpe : num) : num :=
  nullish (Map_get RPE_PERCENT rpe) (Fin 0.92).

Definition epley1RM (weight reps rir : num) : num :=
  (weight * (Fin 1 + (reps + rir) / Fin 30))%num.

(** [Math.max(...values)]: [-Infinity] for no argument, NaN if any is. *)
Definition Math_max (values : list num) : num := fold_left max values NInf.

(** The metrics computed for one logged set. *)
Record SetMetrics : Type := {
  m_weight : num;
  m_reps : num;
  m_rir : num;
  m_rpe : num;
  m_percent : num;
  m_perceived1RM : num;
  m_epley : num;
  m_volume : num
}.

Definition metrics (s : In.PreviousSet) : SetMetrics :=
  let rir := nullish (In.rir s) (Fin 2) in
  let rpe := rpeFromRIR rir in
  let percent := percentFromRPE rpe in
  let perceived1RM := (In.weight s / percent)%num in
  let epley := epley1RM (In.weight s) (In.reps s) rir in
  let volume := (In.weight s * In.reps s)%num in
  {| m_weight := In.weight s; m_reps := In.reps s; m_rir := rir;
     m_rpe := rpe; m_percent := percent; m_perceived1RM := perceived1RM;
     m_epley := epley; m_volume := volume |}.

Definition representative1RM (sets : list In.PreviousSet) : num :=
  let sets := List.map metrics sets in
  let maxPerceived := Math_max (List.map m_perceived1RM sets) in
  let maxEpley := Math_max (List.map m_epley sets) in
  max maxPerceived maxEpley.

Definition targetWeight (unit : WeightUnit) (goal : Goal)
  (representative1RM : num) : num :=
  let targetIntensity := GOAL_INTENSITY goal in
  let rep1rmLbs := toLbs representative1RM unit in
  let targetLbs := (rep1rmLbs * targetIntensity)%num in
  let targetLbs := roundToNearest25lbs targetLbs in
  fromLbs targetLbs unit.

(** The weights of [newSets], one per set of the goal. *)
Definition newSets_weights (unit : WeightUnit) (goal : Goal)
  (ex : In.PreviousExerciseInstance) : list num :=
  array_from_map (GOAL_SETS goal) (fun _ =>
    toFixed 2 (targetWeight unit goal (representative1RM (In.sets ex)))).

End Legacy.

(* ================================================================= *)
(** ** The calorie calculator route

    The numeric results of the handler and of its helpers, in real
    arithmetic, on a body of the declared type.  Each helper also returns
    [steps], display strings that repeat the numbers; they do not feed
    back into any result and are left out. *)

Module Calories.

Inductive Gender : Type := male | female.
Inductive ExerciseFrequency : Type := freq1 | freq2 | freq3 | freq4 | freq5.
Inductive Goal : Type :=
  loseMax | loseMid | loseMin | maintain | gainMin | gainMid | gainMax.
Inductive ExerciseType : Type := strength | endurance | hypertrophy.
Inductive HeightUnit : Type := inches | cm.

Record CalculateRequest : Type := {
  age : num;
  gender : option Gender;
  weight : num;
  height : num;
  exerciseFrequency : option ExerciseFrequency;
  goal : option Goal;
  exerciseType : option ExerciseType;
  weightUnit : option WeightUnit;
  heightUnit : option HeightUnit
}.

Definition goalAdjustments (goal : Goal) : num :=
  match goal with
  | loseMax => Fin (-1000)
  | loseMid => Fin (-750)
  | loseMin => Fin (-500)
  | maintain => Fin 0
  | gainMin => Fin 500
  | gainMid => Fin 750
  | gainMax => Fin 1000
  end.

(** [parseInt] of the frequency strings "1" to "5". *)
Definition parseInt (f : ExerciseFrequency) : num :=
  match f with
  | freq1 => Fin 1 | freq2 => Fin 2 | freq3 => Fin 3
  | freq4 => Fin 4 | freq5 => Fin 5
  end.

Definition calculateBMR (weight height age : num) (gender : Gender)
  (weightUnit : WeightUnit) (heightUnit : HeightUnit) : num :=
  let weightKg :=
    match weightUnit with lbs => (weight * Fin 0.453592)%num | kg => weight end in
  let heightCm :=
    match heightUnit with inches => (height * Fin 2.54)%num | cm => height end in
  match gender with
  | male => (Fin 10 * weightKg + Fin 6.25 * heightCm - Fin 5 * age + Fin 5)%num
  | female => (Fin 10 * weightKg + Fin 6.25 * heightCm - Fin 5 * age - Fin 161)%num
  end.

Definition calculateTEF (bmr : num) : num := (Fin 0.1 * bmr)%num.

Definition calculateEEE (weight : num) (weightUnit : WeightUnit)
  (exerciseFrequency : ExerciseFrequency) : num :=
  let f := parseInt exerciseFrequency in
  let weightKg :=
    match weightUnit with lbs => (weight * Fin 0.453592)%num | kg => weight end in
  let eeePerWorkout := (Fin 3.5 * Fin 3.5 * weightKg / Fin 200 * Fin 60)%num in
  let eee := (eeePerWorkout * f)%num in
  (eee / Fin 7)%num.

Definition calculateNEAT : num := Fin 300.

Definition calculateTDEE (bmr tef eee neat : num) : num :=
  (bmr + tef + eee + neat)%num.

Definition calculateTargetCalories (tdee : num) (goal : Goal) : num :=
  let adjustment := goalAdjustments goal in
  (tdee + adjustment)%num.

(** The two multiplier tables of [calculateMacros]; every pair of a type
    and a frequency has an entry, so the [??] defaults are never used. *)
Definition proteinMultiplier (t : ExerciseType) (f : ExerciseFrequency) : num :=
  match t, f with
  | strength, freq1 => Fin 0.7
  | strength, freq2 => Fin 0.85
  | strength, freq3 => Fin 0.95
  | strength, freq4 => Fin 1.1
  | strength, freq5 => Fin 1.25
  | endurance, freq1 => Fin 0.7
  | endurance, freq2 => Fin 0.8
  | endurance, freq3 => Fin 0.9
  | endurance, freq4 => Fin 0.95
  | endurance, freq5 => Fin 1.0
  | hypertrophy, freq1 => Fin 0.7
  | hypertrophy, freq2 => Fin 0.85
  | hypertrophy, freq3 => Fin 0.95
  | hypertrophy, freq4 => Fin 1.1
  | hypertrophy, freq5 => Fin 1.25
  end.

Definition fatMultiplier (t : ExerciseType) (f : ExerciseFrequency) : num :=
  match t, f with
  | strength, _ => Fin 0.45
  | endurance, _ => Fin 0.4
  | hypertrophy, _ => Fin 0.36
  end.

Record Macros : Type := {
  protein : num;
  fat : num;
  carbs : num
}.

Definition calculateMacros (targetCalories weight : num)
  (weightUnit : WeightUnit) (goal : Goal) (exerciseType : ExerciseType)
  (exerciseFrequency : ExerciseFrequency) : Macros :=
  let weightLbs :=
    match weightUnit with kg => (weight * Fin 2.20462)%num | lbs => weight end in
  let selectedProteinMultiplier := proteinMultiplier exerciseType exerciseFrequency in
  let selectedFatMultiplier := fatMultiplier exerciseType exerciseFrequency in
  let proteinGrams := (weightLbs * selectedProteinMultiplier)%num in
  let proteinCalories := (proteinGrams * Fin 4)%num in
  let fatPerLb := selectedFatMultiplier in
  let fatGrams := (weightLbs * fatPerLb)%num in
  let fatCalories := (fatGrams * Fin 9)%num in
  let carbCalories := (targetCalories - proteinCalories - fatCalories)%num in
  let carbGrams := (carbCalories / Fin 4)%num in
  {| protein := proteinGrams; fat := fatGrams; carbs := carbGrams |}.

Record Results : Type := {
  r_bmr : num;
  r_tef : num;
  r_eee : num;
  r_neat : num;
  r_tdee : num;
  r_targetCalories : num;
  r_protein : num;
  r_fat : num;
  r_carbs : num
}.

Inductive Response : Type :=
| Ok (results : Results)
| InvalidInput.

(** [typeof n !== "number" || isNaN(n) || n <= 0] on a number. *)
Definition bad_number (n : num) : bool :=
  match n with NaN => true | _ => (n <=? Fin 0)%num end.

Definition POST (body : CalculateRequest) : Response :=
  if existsb bad_number [age body; weight body; height body] then InvalidInput
  else
    match gender body, exerciseFrequency body, goal body, exerciseType body,
          weightUnit body, heightUnit body with
    | Some gender, Some exerciseFrequency, Some goal, Some exerciseType,
      Some weightUnit, Some heightUnit =>
        let bmr := calculateBMR (weight body) (height body) (age body) gender
                     weightUnit heightUnit in
        let tef := calculateTEF bmr in
        let eee := calculateEEE (weight body) weightUnit exerciseFrequency in
        let neat := calculateNEAT in
        let tdee := calculateTDEE bmr tef eee neat in
        let targetCalories := calculateTargetCalories tdee goal in
        let macros := calculateMacros targetCalories (weight body) weightUnit
                        goal exerciseType exerciseFrequency in
        Ok {| r_bmr := bmr; r_tef := tef; r_eee := eee; r_neat := neat;
              r_tdee := tdee; r_targetCalories := targetCalories;
              r_protein := protein macros; r_fat := fat macros;
              r_carbs := carbs macros |}
    | _, _, _, _, _, _ => InvalidInput
    end.

End Calories.

(* ================================================================= *)
(** ** The same functions on binary64 numbers

    [F64] embeds [rpe_progression.ts] and the route handler once more, now
    as the engine computes them: every [+], [-], [*] and [/] (written here in brackets) returns the
    binary64 number nearest to the exact result (ties to even, overflow to
    an infinity, gradual underflow), and every decimal literal denotes the
    binary64 number nearest to it.  [Math.round], [Math.abs], [Math.max],
    [Math.min] and the comparisons are exact on binary64 numbers, and
    [toFixed] rounds the exact value of its argument. *)

Module F64.

Definition pow2 (e : Z) : Q := 2 ^ e.

(** [floor (log2 x)] for a positive rational. *)
Definition Qlog2 (x : Q) : Z :=
  let k := (Z.log2 (Qnum x) - Z.log2 (Zpos (Qden x)))%Z in
  if Qle_bool (pow2 k) x then k else (k - 1)%Z.

(** Round to the nearest integer, a tie going to the even one. *)
Definition Qround_even (x : Q) : Z :=
  let f := Qfloor x in
  match Qcompare (x - inject_Z f) (1 # 2) with
  | Lt => f
  | Gt => (f + 1)%Z
  | Eq => if Z.even f then f else (f + 1)%Z
  end.

(** The exponent of the last place of the binary64 numbers around a
    magnitude [x]: 53 significant bits, subnormals from [2^-1074]. *)
Definition binade (x : Q) : Z := Z.max (Qlog2 x - 52) (-1074).

(** A magnitude rounded to the binary64 grid around it. *)
Definition rq (x : Q) : Q :=
  inject_Z (Qround_even (x / pow2 (binade x))) * pow2 (binade x).

(** Magnitudes from [2^1024] on overflow. *)
Definition overflow (r : Q) : num :=
  if Qle_bool (pow2 1024) r then PInf else Fin (Qred r).

(** The binary64 number nearest to [x], ties to even; binary64 is a
    sign-magnitude format, so a negative [x] is rounded by its magnitude. *)
Definition round64 (x : Q) : num :=
  if Qltb x 0 then neg (overflow (rq (- x))) else overflow (rq x).

Definition fl (a : num) : num :=
  match a with Fin q => round64 q | _ => a end.

Definition add (a b : num) : num := fl (JS.add a b).
Definition sub (a b : num) : num := fl (JS.sub a b).
Definition mul (a b : num) : num := fl (JS.mul a b).
Definition div (a b : num) : num := fl (JS.div a b).

Notation "a [+] b" := (add a b) (at level 50, left associativity).
Notation "a [-] b" := (sub a b) (at level 50, left associativity).
Notation "a [*] b" := (mul a b) (at level 40, left associativity).
Notation "a [/] b" := (div a b) (at level 40, left associativity).

(** A decimal literal of the source. *)
Definition lit (q : Q) : num := round64 q.

(** [Number(x.toFixed(d))]: the decimal string is read back as a number. *)
Definition toFixed (d : nat) (a : num) : num := fl (JS.toFixed d a).

(** A [Map] written with decimal literals. *)
Definition literals (m : Map num) : Map num :=
  List.map (fun e => (fl (fst e), fl (snd e))) m.

(** *** [src/lib/rpe_progression.ts] *)

Definition NSCA_BASE_ROW : Map num := literals NSCA_BASE_ROW.

Definition RPE_TABLE : Map (Map num) :=
  List.map (fun e => (fl (fst e), literals (snd e))) RPE_TABLE.

Definition e1rmPerformance (weight reps RIR : num) : num :=
  (weight [*] (Fin 1 [+] (reps [+] RIR) [/] Fin 30)).

(** [keys.sort((a, b) => b - a)] *)
Fixpoint insert_desc (k : num) (l : list num) : list num :=
  match l with
  | [] => [k]
  | y :: l' => if gt (y [-] k) (Fin 0) then y :: insert_desc k l' else k :: l
  end.

Definition sort_desc (l : list num) : list num :=
  fold_right insert_desc [] l.

Definition closest_step (clampedRPE : num) (st : num * num) (rpeVal : num)
  : num * num :=
  let '(closestRPE, minDiff) := st in
  let diff := abs (clampedRPE [-] rpeVal) in
  if (diff <? minDiff)%num then (rpeVal, diff) else (closestRPE, minDiff).

Definition closestRPE_of (clampedRPE : num) (availableRPEs : list num)
  : option num :=
  match availableRPEs with
  | [] => None
  | first :: _ =>
      Some (fst (fold_left (closest_step clampedRPE) availableRPEs
                   (first, abs (clampedRPE [-] first))))
  end.

Definition perceived_basePercent (RIR : num) (baseRow : Map num) : num :=
  let RPE := (Fin 10 [-] RIR) in
  let clampedRPE := max (lit 6.5) (min (Fin 10) RPE) in
  let availableRPEs := sort_desc (Map_keys baseRow) in
  let closestRPE := closestRPE_of clampedRPE availableRPEs in
  nullish (Map_get_opt baseRow closestRPE) (Fin 100).

Definition perceived_adjustedPercent (reps RIR : num)
  (baseRow : Map num) (perRirDropPct : num) : num :=
  let basePercent := perceived_basePercent RIR baseRow in
  let additionalReps := max (Fin 0) (reps [-] Fin 1) in
  (basePercent [-] additionalReps [*] perRirDropPct).

Definition e1rmPerceived (weight reps RIR : num)
  (baseRow : Map num) (perRirDropPct : num) : num :=
  let adjustedPercent :=
    perceived_adjustedPercent reps RIR baseRow perRirDropPct in
  (weight [/] adjustedPercent [*] Fin 100).

Definition getPercentFromRPETable (reps RPE : num) : num :=
  let clampedReps := max (Fin 1) (min (Fin 12) (round reps)) in
  let clampedRPE := max (lit 6.5) (min (Fin 10) RPE) in
  match Map_get RPE_TABLE clampedReps with
  | None => Fin 75
  | Some repsMap =>
      let availableRPEs := sort_desc (Map_keys repsMap) in
      let closestRPE := closestRPE_of clampedRPE availableRPEs in
      nullish (Map_get_opt repsMap closestRPE) (Fin 75)
  end.

Definition loadFromBaselineUsingPercent
  (baseline1RM targetReps targetRIR roundIncrement : num) : num :=
  let targetRPE := (Fin 10 [-] targetRIR) in
  let basePercent := getPercentFromRPETable targetReps targetRPE in
  let loadKg := (baseline1RM [*] basePercent [/] Fin 100) in
  (round (loadKg [/] roundIncrement) [*] roundIncrement).

(** *** [src/lib/zones.ts]: the one function with an arithmetic operation *)

Definition isBelowRange (reps RIR : num) (zone : TrainingGoal) : bool :=
  let preset := ZONE_PRESETS zone in
  (reps <? low preset)%num || (RIR >? (targetRIR preset [+] Fin 1))%num.

(** *** The route handler *)

Definition roundToNearest25lbs (lbs : num) : num :=
  (round (lbs [/] lit 2.5) [*] lit 2.5).

Definition toLbs (value : num) (unit : WeightUnit) : num :=
  match unit with kg => (value [*] lit 2.2046226218) | lbs => value end.

Definition fromLbs (valueLbs : num) (unit : WeightUnit) : num :=
  match unit with kg => (valueLbs [/] lit 2.2046226218) | lbs => valueLbs end.

Definition topSet_step (st : option TopSet * num) (s : In.PreviousSet)
  : option TopSet * num :=
  let '(topSet, maxEpleyScore) := st in
  let rir := nullish (In.rir s) (Fin 2) in
  let epleyScore := e1rmPerformance (In.weight s) (In.reps s) rir in
  if (epleyScore >? maxEpleyScore)%num
  then (Some {| ts_weight := In.weight s; ts_reps := In.reps s; ts_rir := rir |},
        epleyScore)
  else (topSet, maxEpleyScore).

Definition findTopSet (sets : list In.PreviousSet) : option TopSet :=
  fst (fold_left topSet_step sets (None, Fin 0)).

Definition perRirDropPct : num := lit 2.0.

Definition analyse (ex : In.PreviousExerciseInstance) : Analysed :=
  match findTopSet (In.sets ex) with
  | None =>
      {| a_id := In.id ex; a_name := In.name ex; a_group := In.group ex;
         a_topSet := None; a_estimated1RM := Fin 0; a_perceived1RM := Fin 0;
         a_currentBaseline := None; a_rpeChartPercent := None |}
  | Some topSet =>
      let estimated1RM :=
        e1rmPerformance (ts_weight topSet) (ts_reps topSet) (ts_rir topSet) in
      let perceived1RM :=
        e1rmPerceived (ts_weight topSet) (ts_reps topSet) (ts_rir topSet)
          NSCA_BASE_ROW perRirDropPct in
      let currentBaseline := perceived1RM in
      let rpe := (Fin 10 [-] ts_rir topSet) in
      let rpeChartPercent := getPercentFromRPETable (ts_reps topSet) rpe in
      {| a_id := In.id ex; a_name := In.name ex; a_group := In.group ex;
         a_topSet := Some {| top := topSet; rpe := rpe |};
         a_estimated1RM := estimated1RM; a_perceived1RM := perceived1RM;
         a_currentBaseline := Some currentBaseline;
         a_rpeChartPercent := Some rpeChartPercent |}
  end.

Definition roundIncrement : num := lit 2.5.

Definition plannedWeight_base (goal : Goal) (currentBaseline : num) : num :=
  let zonePreset := ZONE_PRESETS goal in
  let targetReps := clampToZoneReps goal (Some (defaultReps zonePreset)) in
  let targetRIR := targetRIR zonePreset in
  loadFromBaselineUsingPercent currentBaseline targetReps targetRIR roundIncrement.

Definition overloadAdjust (inTopOfRange belowRange : bool) (plannedWeight : num)
  : num :=
  if inTopOfRange then max roundIncrement (plannedWeight [+] roundIncrement)
  else if belowRange then max roundIncrement (plannedWeight [-] roundIncrement)
  else plannedWeight.

Definition plannedWeight_adjusted (goal : Goal) (topSet : TopSet)
  (currentBaseline : num) : num :=
  let inTopOfRange := isInTopOfRange (ts_reps topSet) (ts_rir topSet) goal in
  let belowRange := isBelowRange (ts_reps topSet) (ts_rir topSet) goal in
  overloadAdjust inTopOfRange belowRange (plannedWeight_base goal currentBaseline).

Definition finalWeight (unit : WeightUnit) (plannedWeight : num) : num :=
  let plannedLbs := toLbs plannedWeight unit in
  let roundedLbs := roundToNearest25lbs plannedLbs in
  fromLbs roundedLbs unit.

Definition recommend (unit : WeightUnit) (goal : Goal) (ex : Analysed)
  : Out.RecommendedExercise :=
  let zonePreset := ZONE_PRESETS goal in
  match a_topSet ex, a_currentBaseline ex with
  | Some topSetRpe, Some currentBaseline =>
      if negb (truthy currentBaseline) then emptyRecommendation goal ex
      else
        let topSet := top topSetRpe in
        let targetReps := clampToZoneReps goal (Some (defaultReps zonePreset)) in
        let targetRIR := targetRIR zonePreset in
        let plannedWeight := plannedWeight_adjusted goal topSet currentBaseline in
        let finalWeight := finalWeight unit plannedWeight in
        let newSets :=
          array_from_map (Zones.sets zonePreset) (fun idx =>
            ((idx + 1)%nat, toFixed 2 finalWeight, targetReps, targetRIR,
             {| Out.zone := goal; Out.perceived := JS.toFixed 1 currentBaseline;
                Out.unit := unit |})) in
        {| Out.id := a_id ex; Out.name := a_name ex; Out.group := a_group ex;
           Out.perceived1RM := toFixed 2 (a_perceived1RM ex);
           Out.estimated1RM := toFixed 2 (a_estimated1RM ex);
           Out.topSetRPE := rpe topSetRpe;
           Out.recommended :=
             {| Out.targetPercentRange := (low zonePreset, high zonePreset);
                Out.targetReps := targetReps;
                Out.sets :=
                  List.map (fun '(setIndex, weight, reps, rir, notes) =>
                    {| Out.setIndex := setIndex;
                       Out.weight := weight;
                       Out.reps := reps;
                       Out.targetRPE := (Fin 10 [-] rir);
                       Out.percentOf1RM :=
                         toFixed 1 (weight [/] a_perceived1RM ex [*] Fin 100);
                       Out.notes := notes |}) newSets |} |}
  | _, _ => emptyRecommendation goal ex
  end.

(** The handler on the host [host], whose clock [new Date()] reads.  On a
    body of the declared type the one exception is the [RangeError] of
    [toISOString] on an invalid date. *)
Definition POST (host : Clock.Host) (body : In.CalculateRequest) : Out.Response :=
  let unit := nullish (In.weightUnit body) lbs in
  match In.previousWorkout body with
  | None => Out.BadRequest "Invalid previousWorkout payload"
  | Some previousWorkout =>
      match In.exerciseInstances previousWorkout with
      | None => Out.BadRequest "Invalid previousWorkout payload"
      | Some exerciseInstances =>
          let exercises := List.map analyse exerciseInstances in
          let goal := nullish (In.goal previousWorkout) HYPERTROPHY in
          let recommendedExercises := List.map (recommend unit goal) exercises in
          match Clock.setDate_next host with
          | None =>
              Out.ServerError "Unexpected error" "RangeError: Invalid time value"
          | Some tomorrow =>
              let newWorkout :=
                {| Out.date := Clock.isoDate tomorrow;
                   Out.split := nullish (In.split previousWorkout) EmptyString;
                   Out.goal := goal;
                   Out.status := "planned";
                   Out.exerciseInstances := recommendedExercises |} in
              let details := {| Out.exercises := List.map detail exercises |} in
              Out.Ok newWorkout details
          end
      end
  end.

End F64.

(* ================================================================= *)
(** ** Vocabulary of the statements *)

(** The Epley score as a rational expression. *)
Definition epley (w r i : Q) : Q := w * (1 + (r + i) / 30).

(** The RPE keys of every row, in the order the search visits them. *)
Definition rpe_keys : list Q := [10; 9.5; 9; 8.5; 8; 7.5; 7; 6.5].

(** Clamping as the contract words it: RPE into [6.5, 10], reps rounded to
    the nearest integer and then into [1, 12]. *)
Definition clampRPE (rpe : Q) : Q := Qmax 6.5 (Qmin 10 rpe).

Definition clampReps (reps : Q) : Z :=
  Z.max 1 (Z.min 12 (Qround_half_up reps)).

(** The percentage stored in [RPE_TABLE] at row [r], key [k]. *)
Definition stored (r : Z) (k : Q) : option num :=
  match Map_get RPE_TABLE (Fin (inject_Z r)) with
  | Some row => Map_get row (Fin k)
  | None => None
  end.

(** [k] is the key of [keys] nearest to [c], the higher one on a tie. *)
Definition nearest_key (keys : list Q) (c k : Q) : Prop :=
  In k keys /\
  forall k', In k' keys ->
    Qabs (c - k) <= Qabs (c - k') /\
    (Qabs (c - k) == Qabs (c - k') -> k' <= k).

(** The search loop on rationals. *)
Definition Qclosest_step (c : Q) (st : Q * Q) (v : Q) : Q * Q :=
  let '(k, d) := st in
  if Qltb (Qabs (c - v)) d then (v, Qabs (c - v)) else (k, d).

Definition Fin2 (st : Q * Q) : num * num := (Fin (fst st), Fin (snd st)).

(** Every percentage stored in [RPE_TABLE]. *)
Definition table_values : list num :=
  flat_map (fun row : num * Map num => List.map snd (snd row)) RPE_TABLE.

Definition within (lo hi : Q) (a : num) : bool :=
  match a with
  | Fin p => Qle_bool lo p && Qle_bool p hi
  | _ => false
  end.

Definition is_fallback (a : num) : bool := same_value_zero a (Fin 75).

(** The data model of a logged set: positive weight, positive reps, and a
    non-negative RIR when one is given. *)
Definition positive (a : num) : bool :=
  match a with Fin q => Qltb 0 q | _ => false end.

Definition LoggedSet_ok (s : In.PreviousSet) : bool :=
  positive (In.weight s) && positive (In.reps s) &&
  match In.rir s with
  | None => true
  | Some (Fin i) => Qle_bool 0 i
  | Some _ => false
  end.


Definition as_topSet (s : In.PreviousSet) : TopSet :=
  {| ts_weight := In.weight s; ts_reps := In.reps s;
     ts_rir := nullish (In.rir s) (Fin 2) |}.

Definition Qvalue (a : num) : Q :=
  match a with Fin q => q | _ => 0 end.


(** Two sets with the same Epley score, then a lighter one. *)
Definition tie_sets : list In.PreviousSet :=
  [ {| In.weight := Fin 100; In.reps := Fin 5; In.rir := None |};
    {| In.weight := Fin 100; In.reps := Fin 6; In.rir := Some (Fin 1) |};
    {| In.weight := Fin 80; In.reps := Fin 5; In.rir := Some (Fin 2) |} ].

Definition tie_exercise : In.PreviousExerciseInstance :=
  {| In.id := None; In.name := "Row"; In.group := None; In.sets := tie_sets |}.

(** The exercise of the request example in the handler's header comment. *)
Definition bench_exercise : In.PreviousExerciseInstance :=
  {| In.id := Some "bench-1"; In.name := "Bench Press"; In.group := Some "Chest";
     In.sets :=
       [ {| In.weight := Fin 175; In.reps := Fin 6; In.rir := Some (Fin 2) |} ] |}.

Definition bench_top : TopSet :=
  {| ts_weight := Fin 175; ts_reps := Fin 6; ts_rir := Fin 2 |}.


(** A light set inside the hypertrophy range, and two sets of sixty reps. *)
Definition light_exercise : In.PreviousExerciseInstance :=
  {| In.id := None; In.name := "Lateral Raise"; In.group := None;
     In.sets :=
       [ {| In.weight := Fin 1; In.reps := Fin 8; In.rir := Some (Fin 2) |} ] |}.

Definition light_top : TopSet :=
  {| ts_weight := Fin 1; ts_reps := Fin 8; ts_rir := Fin 2 |}.

Definition sixty_top : TopSet :=
  {| ts_weight := Fin 100; ts_reps := Fin 60; ts_rir := Fin 0 |}.

(** Five reps at RIR 4: below the hypertrophy range. *)
Definition below_top : TopSet :=
  {| ts_weight := Fin 185; ts_reps := Fin 5; ts_rir := Fin 4 |}.

Definition perceived_of (t : TopSet) : num :=
  e1rmPerceived (ts_weight t) (ts_reps t) (ts_rir t) NSCA_BASE_ROW (Fin 2).









(* ================================================================= *)
(** ** Vocabulary of the further properties *)

(** The stored percentage as a rational (0 where there is no entry). *)
Definition storedQ (r : Z) (k : Q) : Q := Qvalue (nullish (stored r k) NaN).

Definition rep_rows : list Z := [1; 2; 3; 4; 5; 6; 7; 8; 9; 10; 11; 12]%Z.

(** Along a row the percentage grows with the RPE key; down a column it
    falls with the rep count. *)
Definition table_monotone : bool :=
  forallb (fun r =>
    forallb (fun k =>
      forallb (fun k' =>
        implb (Qle_bool k k') (Qle_bool (storedQ r k) (storedQ r k')))
        rpe_keys) rpe_keys) rep_rows
  &&
  forallb (fun k =>
    forallb (fun r =>
      forallb (fun r' =>
        implb (r <=? r')%Z (Qle_bool (storedQ r' k) (storedQ r k)))
        rep_rows) rep_rows) rpe_keys.

(** The rep range of a zone as rationals. *)
Definition zone_low (zone : TrainingGoal) : Q := Qvalue (low (ZONE_PRESETS zone)).
Definition zone_high (zone : TrainingGoal) : Q := Qvalue (high (ZONE_PRESETS zone)).
Definition zone_targetRIR (zone : TrainingGoal) : Q :=
  Qvalue (targetRIR (ZONE_PRESETS zone)).

(** The set a lifter logs when the prescription is met exactly. *)
Definition prescribed_top (goal : Goal) (weight : num) : TopSet :=
  {| ts_weight := weight;
     ts_reps := clampToZoneReps goal (Some (defaultReps (ZONE_PRESETS goal)));
     ts_rir := targetRIR (ZONE_PRESETS goal) |}.


(** A logged set whose fields are all finite numbers. *)
Definition finite_set (s : In.PreviousSet) : bool :=
  match In.weight s, In.reps s, In.rir s with
  | Fin _, Fin _, None => true
  | Fin _, Fin _, Some (Fin _) => true
  | _, _, _ => false
  end.










(** A number that is [+Infinity] or NaN. *)
Definition unbounded (x : num) : Prop := x = PInf \/ x = NaN.

(* ================================================================= *)
(** ** Vocabulary of the binary64 statements *)

(** A number that binary64 holds: rounding leaves it unchanged.  Every
    number of a JSON body is one. *)
Definition is_double (a : num) : bool := same_value_zero (F64.fl a) a.

Definition double_set (s : In.PreviousSet) : bool :=
  is_double (In.weight s) && is_double (In.reps s) &&
  is_double (nullish (In.rir s) (Fin 2)).

(** The score the engine computes for a logged set. *)
Definition score64 (s : In.PreviousSet) : num :=
  F64.e1rmPerformance (In.weight s) (In.reps s) (nullish (In.rir s) (Fin 2)).


(** Two sets whose Epley scores are both 63 in real arithmetic; binary64
    gives the first one 62.99999999999999. *)
Definition near_tie_sets : list In.PreviousSet :=
  [ {| In.weight := Fin 45; In.reps := Fin 10; In.rir := Some (Fin 2) |};
    {| In.weight := Fin 52.5; In.reps := Fin 4; In.rir := Some (Fin 2) |} ].

Definition near_tie_exercise : In.PreviousExerciseInstance :=
  {| In.id := None; In.name := "Curl"; In.group := None; In.sets := near_tie_sets |}.




(* ================================================================= *)
(** ** Arithmetic of [num] on finite values *)

Section NumFacts.

Lemma Qltb_iff (x y : Q) : Qltb x y = true <-> x < y.
Proof.
  unfold Qltb. rewrite negb_true_iff.
  split; intro H.
  - apply Qnot_le_lt. intro Hle. apply Qle_bool_iff in Hle. congruence.
  - destruct (Qle_bool y x) eqn:E; [|reflexivity].
    apply Qle_bool_iff in E. exfalso. apply (Qlt_not_le _ _ H E).
Qed.

Lemma Qltb_false_iff (x y : Q) : Qltb x y = false <-> y <= x.
Proof.
  unfold Qltb. rewrite negb_false_iff. apply Qle_bool_iff.
Qed.

Lemma Qeq_bool_false_iff (x y : Q) : Qeq_bool x y = false <-> ~ x == y.
Proof.
  split; intro H.
  - intro E. apply Qeq_bool_iff in E. congruence.
  - destruct (Qeq_bool x y) eqn:E; [|reflexivity].
    apply Qeq_bool_iff in E. contradiction.
Qed.

Lemma num_eq_refl (a : num) : a =n= a.
Proof. destruct a; simpl; auto. reflexivity. Qed.



Lemma div_Fin (x y : Q) : ~ y == 0 -> (Fin x / Fin y)%num = Fin (x / y).
Proof.
  intro H. unfold div. apply Qeq_bool_false_iff in H. rewrite H. reflexivity.
Qed.

Lemma max_Fin (x y : Q) : max (Fin x) (Fin y) = Fin (if Qltb x y then y else x).
Proof. unfold max, lt. destruct (Qltb x y); reflexivity. Qed.

Lemma min_Fin (x y : Q) : min (Fin x) (Fin y) = Fin (if Qltb y x then y else x).
Proof. unfold min, lt. destruct (Qltb y x); reflexivity. Qed.

End NumFacts.

(* ================================================================= *)
(** ** Binary64 rounding *)

Section Rounding.
Import F64.

Lemma pow2_pos (e : Z) : 0 < pow2 e.
Proof. apply Qpower_0_lt. reflexivity. Qed.

Lemma pow2_add (a b : Z) : pow2 (a + b) == pow2 a * pow2 b.
Proof. apply Qpower_plus. discriminate. Qed.

Lemma pow2_le (a b : Z) : (a <= b)%Z -> pow2 a <= pow2 b.
Proof. intro H. apply Qpower_le_compat_l; [exact H | discriminate]. Qed.

Lemma pow2_lt_inv (a b : Z) : pow2 a < pow2 b -> (a < b)%Z.
Proof. intro H. apply (Qpower_lt_compat_l_inv 2); [exact H | reflexivity]. Qed.

Lemma pow2_Z (n : Z) : (0 <= n)%Z -> pow2 n == inject_Z (2 ^ n).
Proof. intro H. unfold pow2. rewrite Zpower_Qpower by exact H. reflexivity. Qed.

Lemma Qlog2_spec (x : Q) :
  0 < x -> pow2 (Qlog2 x) <= x /\ x < pow2 (Qlog2 x + 1).
Proof.
  intro Hx. destruct x as [n d].
  assert (Hn : (0 < n)%Z) by (unfold Qlt in Hx; cbn in Hx; lia).
  unfold Qlog2. cbn [Qnum Qden].
  pose proof (Z.log2_spec n Hn) as [Ha1 Ha2].
  pose proof (Z.log2_spec (Zpos d) (Pos2Z.is_pos d)) as [Hb1 Hb2].
  pose proof (Z.log2_nonneg n) as Ea.
  pose proof (Z.log2_nonneg (Zpos d)) as Eb.
  set (a := Z.log2 n) in *. set (b := Z.log2 (Zpos d)) in *.
  assert (X : n # d == inject_Z n / inject_Z (Zpos d)) by apply Qmake_Qdiv.
  assert (HD : 0 < inject_Z (Zpos d)) by reflexivity.
  assert (Qa1 : pow2 a <= inject_Z n)
    by (rewrite pow2_Z by lia; rewrite <- Zle_Qle; exact Ha1).
  assert (Qa2 : inject_Z n < pow2 (a + 1))
    by (rewrite pow2_Z by lia; rewrite <- Zlt_Qlt; exact Ha2).
  assert (Qb1 : pow2 b <= inject_Z (Zpos d))
    by (rewrite pow2_Z by lia; rewrite <- Zle_Qle; exact Hb1).
  assert (Qb2 : inject_Z (Zpos d) < pow2 (b + 1))
    by (rewrite pow2_Z by lia; rewrite <- Zlt_Qlt; exact Hb2).
  assert (lower : pow2 (a - b - 1) <= n # d).
  { rewrite X. apply Qle_shift_div_l; [exact HD|].
    apply Qle_trans with (pow2 (a - b - 1) * pow2 (b + 1)).
    - apply Qmult_le_l; [apply pow2_pos | apply Qlt_le_weak; exact Qb2].
    - rewrite <- pow2_add. replace (a - b - 1 + (b + 1))%Z with a by lia.
      exact Qa1. }
  assert (upper : n # d < pow2 (a - b + 1)).
  { rewrite X. apply Qlt_shift_div_r; [exact HD|].
    apply Qlt_le_trans with (pow2 (a - b + 1) * pow2 b).
    - rewrite <- pow2_add. replace (a - b + 1 + b)%Z with (a + 1)%Z by lia.
      exact Qa2.
    - apply Qmult_le_l; [apply pow2_pos | exact Qb1]. }
  destruct (Qle_bool (pow2 (a - b)) (n # d)) eqn:E.
  - apply Qle_bool_iff in E. split; [exact E | exact upper].
  - split.
    + exact lower.
    + replace (a - b - 1 + 1)%Z with (a - b)%Z by lia.
      apply Qnot_le_lt. intro H. apply Qle_bool_iff in H. congruence.
Qed.

Lemma Qlog2_mono (x y : Q) : 0 < x -> x <= y -> (Qlog2 x <= Qlog2 y)%Z.
Proof.
  intros Hx Hxy.
  destruct (Qlog2_spec x Hx) as [Lx _].
  destruct (Qlog2_spec y (Qlt_le_trans _ _ _ Hx Hxy)) as [_ Uy].
  assert (H : pow2 (Qlog2 x) < pow2 (Qlog2 y + 1)).
  { apply Qle_lt_trans with x; [exact Lx|].
    apply Qle_lt_trans with y; assumption. }
  apply pow2_lt_inv in H. lia.
Qed.


Lemma Qround_even_bounds (x : Q) :
  (Qfloor x <= Qround_even x <= Qfloor x + 1)%Z.
Proof.
  unfold Qround_even.
  destruct (x - inject_Z (Qfloor x) ?= 1 # 2); [destruct (Z.even (Qfloor x))| |]; lia.
Qed.

Lemma Qround_even_mono (x y : Q) :
  x <= y -> (Qround_even x <= Qround_even y)%Z.
Proof.
  intro H. pose proof (Qfloor_resp_le x y H) as Hf.
  destruct (Z.eq_dec (Qfloor x) (Qfloor y)) as [E|N].
  - unfold Qround_even. rewrite <- E.
    set (f := inject_Z (Qfloor x)).
    destruct (x - f ?= 1 # 2) eqn:Cx; destruct (y - f ?= 1 # 2) eqn:Cy;
      try (destruct (Z.even (Qfloor x))); try lia; exfalso;
      (first [apply Qeq_alt in Cx | apply Qlt_alt in Cx | apply Qgt_alt in Cx]);
      (first [apply Qeq_alt in Cy | apply Qlt_alt in Cy | apply Qgt_alt in Cy]);
      lra.
  - pose proof (Qround_even_bounds x). pose proof (Qround_even_bounds y). lia.
Qed.

Lemma Qround_even_Z (n : Z) : Qround_even (inject_Z n) = n.
Proof.
  unfold Qround_even. rewrite Qfloor_Z.
  assert (E : inject_Z n - inject_Z n == 0) by ring.
  assert (C : (inject_Z n - inject_Z n ?= 1 # 2) = Lt).
  { apply Qlt_alt. rewrite E. reflexivity. }
  rewrite C. reflexivity.
Qed.

Lemma Qround_even_proper (x y : Q) : x == y -> Qround_even x = Qround_even y.
Proof.
  intro E. apply Z.le_antisymm; apply Qround_even_mono; rewrite E; apply Qle_refl.
Qed.

Lemma binade_mono (x y : Q) : 0 < x -> x <= y -> (binade x <= binade y)%Z.
Proof.
  intros Hx H. unfold binade. pose proof (Qlog2_mono x y Hx H). lia.
Qed.

Lemma rq_nonneg (x : Q) : 0 <= x -> 0 <= rq x.
Proof.
  intro H. unfold rq. apply Qmult_le_0_compat.
  - change 0 with (inject_Z 0). rewrite <- Zle_Qle.
    rewrite <- (Qround_even_Z 0). apply Qround_even_mono.
    apply Qle_shift_div_l; [apply pow2_pos|]. change (inject_Z 0) with 0. lra.
  - apply Qlt_le_weak, pow2_pos.
Qed.

(** Rounding at one binade. *)
Lemma rq_at_mono (e : Z) (x y : Q) :
  x <= y ->
  inject_Z (Qround_even (x / pow2 e)) * pow2 e
  <= inject_Z (Qround_even (y / pow2 e)) * pow2 e.
Proof.
  intro H. apply Qmult_le_compat_r; [|apply Qlt_le_weak, pow2_pos].
  rewrite <- Zle_Qle. apply Qround_even_mono.
  apply Qmult_le_compat_r; [exact H|].
  apply Qlt_le_weak, Qinv_lt_0_compat, pow2_pos.
Qed.

(** A power of two on the grid of a binade is kept by the rounding. *)
Lemma rq_at_pow2 (e k : Z) :
  (e <= k)%Z ->
  inject_Z (Qround_even (pow2 k / pow2 e)) * pow2 e == pow2 k.
Proof.
  intro H.
  assert (E : pow2 k / pow2 e == inject_Z (2 ^ (k - e))).
  { rewrite <- pow2_Z by lia. unfold pow2. rewrite Qpower_minus by discriminate.
    reflexivity. }
  rewrite (Qround_even_proper _ _ E), Qround_even_Z.
  rewrite <- pow2_Z by lia. rewrite <- pow2_add.
  replace (k - e + e)%Z with k by lia. reflexivity.
Qed.

Lemma rq_mono (x y : Q) : 0 < x -> x <= y -> rq x <= rq y.
Proof.
  intros Hx H.
  assert (Hy : 0 < y) by (apply Qlt_le_trans with x; assumption).
  pose proof (binade_mono x y Hx H) as He.
  destruct (Z.eq_dec (binade x) (binade y)) as [E|N].
  - unfold rq. rewrite E. apply rq_at_mono. exact H.
  - assert (Hlt : (binade x < binade y)%Z) by lia.
    set (k := Qlog2 y).
    assert (Ey : binade y = (k - 52)%Z).
    { unfold binade in *. fold k. fold k in Hlt. lia. }
    assert (Lx : (Qlog2 x - 52 <= binade x)%Z) by (unfold binade; lia).
    destruct (Qlog2_spec x Hx) as [_ Ux].
    destruct (Qlog2_spec y Hy) as [Ly _]. fold k in Ly.
    assert (Hxk : x <= pow2 k).
    { apply Qlt_le_weak. apply Qlt_le_trans with (pow2 (Qlog2 x + 1)); [exact Ux|].
      apply pow2_le. lia. }
    apply Qle_trans with (pow2 k).
    + unfold rq. rewrite <- (rq_at_pow2 (binade x) k) by lia.
      apply rq_at_mono. exact Hxk.
    + unfold rq. rewrite <- (rq_at_pow2 (binade y) k) at 1 by lia.
      apply rq_at_mono. exact Ly.
Qed.

Lemma rq_mono0 (x y : Q) : 0 <= x -> x <= y -> rq x <= rq y.
Proof.
  intros Hx H. destruct (Qlt_le_dec 0 x) as [Hpos|Hz].
  - apply rq_mono; assumption.
  - assert (E : x == 0) by lra.
    assert (R : rq x == 0).
    { unfold rq.
      assert (E0 : x / pow2 (binade x) == inject_Z 0).
      { unfold Qdiv. set (c := / pow2 (binade x)). clearbody c.
        rewrite E. change (inject_Z 0) with 0. ring. }
      rewrite (Qround_even_proper _ _ E0), Qround_even_Z. ring. }
    rewrite R. apply rq_nonneg. lra.
Qed.

Lemma overflow_mono (r s : Q) :
  r <= s -> (overflow r <=? overflow s)%num = true.
Proof.
  intro H. unfold overflow.
  destruct (Qle_bool (pow2 1024) s) eqn:Es.
  - destruct (Qle_bool (pow2 1024) r); reflexivity.
  - destruct (Qle_bool (pow2 1024) r) eqn:Er.
    + apply Qle_bool_iff in Er. exfalso.
      assert (Hs : pow2 1024 <= s) by (apply Qle_trans with r; assumption).
      apply Qle_bool_iff in Hs. congruence.
    + cbn [le]. apply Qle_bool_iff. rewrite !Qred_correct. exact H.
Qed.

Lemma overflow_nonneg (r : Q) : 0 <= r -> (Fin 0 <=? overflow r)%num = true.
Proof.
  intro H. unfold overflow. destruct (Qle_bool (pow2 1024) r); [reflexivity|].
  cbn [le]. apply Qle_bool_iff. rewrite Qred_correct. exact H.
Qed.

Lemma le_neg (a b : num) : (a <=? b)%num = true -> (neg b <=? neg a)%num = true.
Proof.
  destruct a, b; cbn [le neg]; try discriminate; try reflexivity.
  rewrite !Qle_bool_iff. intro H. lra.
Qed.

Lemma le_trans_num (a b c : num) :
  (a <=? b)%num = true -> (b <=? c)%num = true -> (a <=? c)%num = true.
Proof.
  destruct a, b, c; cbn [le]; try discriminate; try reflexivity.
  rewrite !Qle_bool_iff. apply Qle_trans.
Qed.

(** Rounding to binary64 is monotone. *)
Lemma round64_mono (x y : Q) :
  x <= y -> (round64 x <=? round64 y)%num = true.
Proof.
  intro H. unfold round64.
  destruct (Qltb x 0) eqn:Sx; destruct (Qltb y 0) eqn:Sy.
  - apply Qltb_iff in Sx, Sy. apply le_neg, overflow_mono, rq_mono; lra.
  - apply Qltb_iff in Sx. apply Qltb_false_iff in Sy.
    apply le_trans_num with (Fin 0).
    + change (Fin 0) with (neg (Fin 0)). apply le_neg, overflow_nonneg, rq_nonneg. lra.
    + apply overflow_nonneg, rq_nonneg. exact Sy.
  - apply Qltb_false_iff in Sx. apply Qltb_iff in Sy. exfalso. lra.
  - apply Qltb_false_iff in Sx. apply overflow_mono, rq_mono0; assumption.
Qed.





End Rounding.

(* ================================================================= *)
(** ** The performance estimator *)

Lemma e1rmPerformance_Fin (w r i : Q) :
  e1rmPerformance (Fin w) (Fin r) (Fin i) = Fin (epley w r i).
Proof. reflexivity. Qed.

Lemma epley_lt (w r1 i1 r2 i2 : Q) :
  0 < w -> r1 + i1 < r2 + i2 -> epley w r1 i1 < epley w r2 i2.
Proof.
  intros Hw H. unfold epley.
  setoid_replace (w * (1 + (r2 + i2) / 30))
    with (w * (1 + (r1 + i1) / 30) + w * ((r2 + i2 - (r1 + i1)) / 30)) by field.
  assert (0 < w * ((r2 + i2 - (r1 + i1)) / 30)).
  { apply Qmult_lt_0_compat; [exact Hw|].
    apply Qlt_shift_div_l; lra. }
  lra.
Qed.

Lemma epley_le (w r1 i1 r2 i2 : Q) :
  0 < w -> r1 + i1 <= r2 + i2 -> epley w r1 i1 <= epley w r2 i2.
Proof.
  intros Hw H.
  destruct (Qlt_le_dec (r1 + i1) (r2 + i2)) as [Hlt|Hge].
  - apply Qlt_le_weak. apply epley_lt; assumption.
  - assert (E : r1 + i1 == r2 + i2) by lra.
    unfold epley. rewrite E. apply Qle_refl.
Qed.

(** C8. The performance estimator is [weight * (1 + (reps + RIR) / 30)] on
    every real input, with no clamping: for a fixed positive weight it is
    monotone non-decreasing in reps and in RIR, and even strictly increasing
    in each, so no range of inputs or outputs is flattened. *)
Theorem e1rmPerformance_monotone (w : Q) (Hw : 0 < w) :
  (forall r i : Q,
      e1rmPerformance (Fin w) (Fin r) (Fin i) = Fin (w * (1 + (r + i) / 30))) /\
  (forall r1 r2 i : Q, r1 <= r2 ->
      (e1rmPerformance w r1 i <=? e1rmPerformance w r2 i)%num = true) /\
  (forall r i1 i2 : Q, i1 <= i2 ->
      (e1rmPerformance w r i1 <=? e1rmPerformance w r i2)%num = true) /\
  (forall r1 r2 i : Q, r1 < r2 ->
      (e1rmPerformance w r1 i <? e1rmPerformance w r2 i)%num = true) /\
  (forall r i1 i2 : Q, i1 < i2 ->
      (e1rmPerformance w r i1 <? e1rmPerformance w r i2)%num = true).
Proof.
  repeat split; intros; rewrite ?e1rmPerformance_Fin; try reflexivity; simpl.
  - apply Qle_bool_iff. apply epley_le; [exact Hw | lra].
  - apply Qle_bool_iff. apply epley_le; [exact Hw | lra].
  - apply Qltb_iff. apply epley_lt; [exact Hw | lra].
  - apply Qltb_iff. apply epley_lt; [exact Hw | lra].
Qed.

Lemma e1rmPerformance_monotone_witness :
  0 < 185 /\
  (e1rmPerformance 185 5 2 <=? e1rmPerformance 185 6 2)%num = true /\
  (e1rmPerformance 185 5 2 <? e1rmPerformance 185 5 3)%num = true.
Proof.
  assert (Hw : 0 < 185) by reflexivity.
  split; [exact Hw|].
  destruct (e1rmPerformance_monotone 185 Hw) as (_ & Hr & _ & _ & Hi).
  split.
  - apply (Hr 5 6 2). discriminate.
  - apply (Hi 5 2 3). reflexivity.
Defined.

(** C9. The scenario 185 x 5 at RIR 2 with the default base row and a 2.0
    per-rep drop: the performance estimate is 185 * (1 + 7/30); the
    perceived estimator resolves RPE 8 to the base percentage 92.2, takes
    off 4 * 2.0 to reach 84.2 and returns 185 / 84.2 * 100, which is 219.71
    to two decimals. *)
Theorem scenario_185_5_2 :
  e1rmPerformance 185 5 2 =n= Fin (185 * (1 + 7 / 30)) /\
  closestRPE_of (max 6.5 (min 10 (10 - 2)%num))
    (sort_desc (Map_keys NSCA_BASE_ROW)) = Some (Fin 8) /\
  perceived_basePercent 2 NSCA_BASE_ROW = Fin 92.2 /\
  perceived_adjustedPercent 5 2 NSCA_BASE_ROW 2 =n= Fin (92.2 - 4 * 2.0) /\
  perceived_adjustedPercent 5 2 NSCA_BASE_ROW 2 =n= Fin 84.2 /\
  e1rmPerceived 185 5 2 NSCA_BASE_ROW 2 =n= Fin (185 / 84.2 * 100) /\
  toFixed 2 (e1rmPerceived 185 5 2 NSCA_BASE_ROW 2) =n= Fin 219.71.
Proof.
  repeat split; vm_compute; reflexivity.
Qed.

(* ================================================================= *)
(** ** The nearest-key search *)

Section ClosestKey.

Variable c : Q.

Lemma closest_step_Fin (st : Q * Q) (v : Q) :
  closest_step (Fin c) (Fin2 st) (Fin v) = Fin2 (Qclosest_step c st v).
Proof.
  destruct st as [k d]. unfold closest_step, Qclosest_step, Fin2. cbn [fst snd].
  change (abs (Fin c - Fin v)%num) with (Fin (Qabs (c - v))).
  change ((Fin (Qabs (c - v)) <? Fin d)%num) with (Qltb (Qabs (c - v)) d).
  destruct (Qltb (Qabs (c - v)) d); reflexivity.
Qed.

Lemma closest_fold_Fin (ks : list Q) : forall st,
  fold_left (closest_step (Fin c)) (List.map Fin ks) (Fin2 st)
  = Fin2 (fold_left (Qclosest_step c) ks st).
Proof.
  induction ks as [|v ks IH]; intro st; cbn [fold_left List.map].
  - reflexivity.
  - rewrite closest_step_Fin. apply IH.
Qed.

Lemma Qclosest_step_self (k : Q) :
  Qclosest_step c (k, Qabs (c - k)) k = (k, Qabs (c - k)).
Proof.
  unfold Qclosest_step.
  destruct (Qltb (Qabs (c - k)) (Qabs (c - k))) eqn:E; [|reflexivity].
  apply Qltb_iff in E. exfalso. apply (Qlt_irrefl _ E).
Qed.

(** One step keeps the invariant: the state holds the nearest key of the
    prefix seen so far, provided the new key is below all of that prefix. *)
Lemma Qclosest_step_nearest (seen : list Q) (k d v : Q) :
  d == Qabs (c - k) ->
  nearest_key seen c k ->
  (forall x, In x seen -> v <= x) ->
  nearest_key (seen ++ [v]) c (fst (Qclosest_step c (k, d) v)) /\
  snd (Qclosest_step c (k, d) v)
  == Qabs (c - fst (Qclosest_step c (k, d) v)).
Proof.
  intros Hd [Hin Hbest] Hlow. unfold Qclosest_step.
  destruct (Qltb (Qabs (c - v)) d) eqn:E; cbn [fst snd].
  - apply Qltb_iff in E. rewrite Hd in E.
    split; [|reflexivity]. split.
    + apply in_or_app. right. left. reflexivity.
    + intros k' Hk'. apply in_app_or in Hk'. destruct Hk' as [Hk'|[<-|[]]].
      * destruct (Hbest k' Hk') as [Hle _]. split.
        -- lra.
        -- intro Heq. exfalso. lra.
      * split; [apply Qle_refl | intros _; apply Qle_refl].
  - apply Qltb_false_iff in E. rewrite Hd in E.
    split; [|exact Hd]. split.
    + apply in_or_app. left. exact Hin.
    + intros k' Hk'. apply in_app_or in Hk'. destruct Hk' as [Hk'|[<-|[]]].
      * apply Hbest. exact Hk'.
      * split; [exact E | intros _; apply Hlow; exact Hin].
Qed.

Lemma Qclosest_fold_nearest (ks : list Q) : forall seen k d,
  d == Qabs (c - k) ->
  nearest_key seen c k ->
  (forall x y, In x seen -> In y ks -> y <= x) ->
  StronglySorted (fun a b => b <= a) ks ->
  nearest_key (seen ++ ks) c (fst (fold_left (Qclosest_step c) ks (k, d))).
Proof.
  induction ks as [|v ks IH]; intros seen k d Hd Hbest Hlow Hsort;
    cbn [fold_left].
  - rewrite app_nil_r. exact Hbest.
  - inversion Hsort as [|? ? Hsort' Hall]; subst.
    destruct (Qclosest_step_nearest seen k d v Hd Hbest) as [Hb' Hd'].
    { intros x Hx. apply (Hlow x v Hx). left. reflexivity. }
    destruct (Qclosest_step c (k, d) v) as [k1 d1] eqn:E1.
    cbn [fst snd] in Hb', Hd'.
    replace (seen ++ v :: ks) with ((seen ++ [v]) ++ ks)
      by (rewrite <- app_assoc; reflexivity).
    apply IH; try assumption.
    intros x y Hx Hy. apply in_app_or in Hx. destruct Hx as [Hx|[<-|[]]].
    + apply (Hlow x y Hx). right. exact Hy.
    + rewrite Forall_forall in Hall. apply Hall. exact Hy.
Qed.

(** The whole search, started as the source starts it, on a descending
    list of keys. *)
Lemma closestRPE_of_nearest (k0 : Q) (ks : list Q) :
  StronglySorted (fun a b => b <= a) (k0 :: ks) ->
  exists k,
    closestRPE_of (Fin c) (List.map Fin (k0 :: ks)) = Some (Fin k) /\
    nearest_key (k0 :: ks) c k.
Proof.
  intro Hsort. inversion Hsort as [|? ? Hsort' Hall]; subst.
  exists (fst (fold_left (Qclosest_step c) ks (k0, Qabs (c - k0)))).
  split.
  - unfold closestRPE_of. cbn [List.map].
    change (abs (Fin c - Fin k0)%num) with (Fin (Qabs (c - k0))).
    change (Fin k0, Fin (Qabs (c - k0))) with (Fin2 (k0, Qabs (c - k0))).
    rewrite (closest_fold_Fin (k0 :: ks)). cbn [fold_left].
    rewrite Qclosest_step_self. reflexivity.
  - apply (Qclosest_fold_nearest ks [k0] k0 (Qabs (c - k0))).
    + reflexivity.
    + split; [left; reflexivity|].
      intros k' [<-|[]]. split; [apply Qle_refl | intros _; apply Qle_refl].
    + intros x y [<-|[]] Hy. rewrite Forall_forall in Hall. apply Hall. exact Hy.
    + exact Hsort'.
Qed.

End ClosestKey.

(* ================================================================= *)
(** ** The table lookup *)

Lemma same_value_zero_proper (k0 k k' : num) :
  k =n= k' -> same_value_zero k0 k = same_value_zero k0 k'.
Proof.
  destruct k0, k, k'; simpl; try reflexivity; try contradiction.
  intro H.
  destruct (Qeq_bool q q0) eqn:E1, (Qeq_bool q q1) eqn:E2; try reflexivity.
  - apply Qeq_bool_iff in E1. apply Qeq_bool_false_iff in E2.
    exfalso. apply E2. rewrite E1. exact H.
  - apply Qeq_bool_iff in E2. apply Qeq_bool_false_iff in E1.
    exfalso. apply E1. rewrite E2. symmetry. exact H.
Qed.

Lemma Map_get_proper {V : Type} (m : Map V) (k k' : num) :
  k =n= k' -> Map_get m k = Map_get m k'.
Proof.
  intro H. induction m as [|[k0 v] m IH]; simpl.
  - reflexivity.
  - rewrite (same_value_zero_proper k0 k k' H), IH. reflexivity.
Qed.

Lemma Map_get_In {V : Type} (m : Map V) (k : num) (v : V) :
  Map_get m k = Some v -> In v (List.map snd m).
Proof.
  induction m as [|[k0 v0] m IH]; simpl.
  - discriminate.
  - destruct (same_value_zero k0 k).
    + intro H. injection H as ->. left. reflexivity.
    + intro H. right. apply IH. exact H.
Qed.

Lemma nearest_key_proper (keys : list Q) (c c' k : Q) :
  c == c' -> nearest_key keys c k -> nearest_key keys c' k.
Proof.
  intros E [Hin H]. split; [exact Hin|].
  intros k' Hk'. destruct (H k' Hk') as [H1 H2].
  split.
  - rewrite <- E. exact H1.
  - rewrite <- E. exact H2.
Qed.

(** The nearest key is determined up to numeric equality. *)
Lemma nearest_key_unique (keys : list Q) (c k1 k2 : Q) :
  nearest_key keys c k1 -> nearest_key keys c k2 -> k1 == k2.
Proof.
  intros [In1 H1] [In2 H2].
  destruct (H1 k2 In2) as [L1 T1]. destruct (H2 k1 In1) as [L2 T2].
  assert (E : Qabs (c - k1) == Qabs (c - k2)) by (apply Qle_antisym; assumption).
  apply Qle_antisym.
  - apply T2. symmetry. exact E.
  - apply T1. exact E.
Qed.

Lemma rpe_keys_sorted : StronglySorted (fun a b => b <= a) rpe_keys.
Proof.
  unfold rpe_keys.
  repeat (apply SSorted_cons;
          [| repeat (apply Forall_cons; [discriminate|]); apply Forall_nil]).
  apply SSorted_nil.
Qed.

Lemma clampedRPE_Fin (rpe : Q) :
  exists c, max (Fin 6.5) (min (Fin 10) (Fin rpe)) = Fin c /\ c == clampRPE rpe.
Proof.
  rewrite min_Fin, max_Fin. eexists. split; [reflexivity|].
  unfold clampRPE.
  destruct (Qltb rpe 10) eqn:E1.
  - apply Qltb_iff in E1. rewrite (Q.min_r 10 rpe) by lra.
    destruct (Qltb 6.5 rpe) eqn:E2.
    + apply Qltb_iff in E2. rewrite Q.max_r by lra. reflexivity.
    + apply Qltb_false_iff in E2. rewrite Q.max_l by lra. reflexivity.
  - apply Qltb_false_iff in E1. rewrite (Q.min_l 10 rpe) by lra.
    rewrite Q.max_r by lra. reflexivity.
Qed.

Lemma clampRPE_range (rpe : Q) : 6.5 <= clampRPE rpe <= 10.
Proof.
  unfold clampRPE. split.
  - apply Q.le_max_l.
  - apply Q.max_lub; [lra | apply Q.le_min_l].
Qed.

Lemma clampReps_range (reps : Q) : (1 <= clampReps reps <= 12)%Z.
Proof. unfold clampReps. lia. Qed.

Lemma clampedReps_Fin (reps : Q) :
  exists x, max (Fin 1) (min (Fin 12) (round (Fin reps))) = Fin x /\
            x == inject_Z (clampReps reps).
Proof.
  unfold round. rewrite min_Fin, max_Fin. eexists. split; [reflexivity|].
  unfold clampReps. set (n := Qround_half_up reps).
  destruct (Qltb (inject_Z n) 12) eqn:E1.
  - apply Qltb_iff in E1. change 12 with (inject_Z 12) in E1.
    rewrite <- Zlt_Qlt in E1. rewrite (Z.min_r 12 n) by lia.
    destruct (Qltb 1 (inject_Z n)) eqn:E2.
    + apply Qltb_iff in E2. change 1 with (inject_Z 1) in E2.
      rewrite <- Zlt_Qlt in E2. rewrite Z.max_r by lia. reflexivity.
    + apply Qltb_false_iff in E2. change 1 with (inject_Z 1) in E2.
      rewrite <- Zle_Qle in E2. rewrite Z.max_l by lia. reflexivity.
  - apply Qltb_false_iff in E1. change 12 with (inject_Z 12) in E1.
    rewrite <- Zle_Qle in E1. rewrite (Z.min_l 12 n) by lia.
    reflexivity.
Qed.

(** Every row of the table has the eight RPE keys. *)
Lemma RPE_TABLE_rows (z : Z) :
  (1 <= z <= 12)%Z ->
  exists p10 p95 p9 p85 p8 p75 p7 p65,
    Map_get RPE_TABLE (Fin (inject_Z z))
    = Some (rpe_row p10 p95 p9 p85 p8 p75 p7 p65).
Proof.
  intro H.
  assert (C : (z = 1 \/ z = 2 \/ z = 3 \/ z = 4 \/ z = 5 \/ z = 6 \/ z = 7 \/
               z = 8 \/ z = 9 \/ z = 10 \/ z = 11 \/ z = 12)%Z) by lia.
  repeat (destruct C as [->|C]; [do 8 eexists; reflexivity|]).
  subst z. do 8 eexists. reflexivity.
Qed.

Lemma rpe_row_keys (p10 p95 p9 p85 p8 p75 p7 p65 : Q) :
  sort_desc (Map_keys (rpe_row p10 p95 p9 p85 p8 p75 p7 p65))
  = List.map Fin rpe_keys.
Proof. reflexivity. Qed.

Lemma rpe_row_get (p10 p95 p9 p85 p8 p75 p7 p65 k : Q) :
  In k rpe_keys ->
  exists p, Map_get (rpe_row p10 p95 p9 p85 p8 p75 p7 p65) (Fin k) = Some (Fin p).
Proof.
  unfold rpe_keys. intro H.
  repeat (destruct H as [<-|H]; [eexists; reflexivity|]).
  destruct H.
Qed.

Lemma table_values_bounds :
  forallb (fun v => within 58.6 100 v && negb (is_fallback v)) table_values = true.
Proof. vm_compute. reflexivity. Qed.

Lemma table_values_In (x : num) (row : Map num) (k : num) (v : num) :
  Map_get RPE_TABLE x = Some row -> Map_get row k = Some v ->
  In v table_values.
Proof.
  intros Hrow Hv. unfold table_values. apply in_flat_map.
  apply Map_get_In in Hv.
  revert Hrow. generalize RPE_TABLE as t.
  induction t as [|[k0 r0] t IH]; simpl.
  - discriminate.
  - destruct (same_value_zero k0 x).
    + intro H. injection H as ->. exists (k0, row). split; [left; reflexivity|exact Hv].
    + intro H. destruct (IH H) as (e & He & Hv'). exists e. split; [right; exact He|exact Hv'].
Qed.

(** The lookup, step by step, on real inputs. *)
Lemma getPercentFromRPETable_steps (reps RPE : Q) :
  exists (row : Map num) (x c k p : Q),
    max (Fin 1) (min (Fin 12) (round (Fin reps))) = Fin x /\
    x == inject_Z (clampReps reps) /\
    max (Fin 6.5) (min (Fin 10) (Fin RPE)) = Fin c /\
    c == clampRPE RPE /\
    Map_get RPE_TABLE (Fin x) = Some row /\
    closestRPE_of (Fin c) (sort_desc (Map_keys row)) = Some (Fin k) /\
    nearest_key rpe_keys c k /\
    Map_get row (Fin k) = Some (Fin p) /\
    getPercentFromRPETable (Fin reps) (Fin RPE) = Fin p.
Proof.
  destruct (clampedReps_Fin reps) as (x & Hx & Ex).
  destruct (clampedRPE_Fin RPE) as (c & Hc & Ec).
  destruct (RPE_TABLE_rows (clampReps reps) (clampReps_range reps))
    as (p10 & p95 & p9 & p85 & p8 & p75 & p7 & p65 & Hrow).
  rewrite <- (Map_get_proper RPE_TABLE (Fin x) (Fin (inject_Z (clampReps reps))) Ex)
    in Hrow.
  destruct (closestRPE_of_nearest c 10 (tl rpe_keys) rpe_keys_sorted)
    as (k & Hk & Hnear).
  change (10 :: tl rpe_keys) with rpe_keys in Hk, Hnear.
  destruct (rpe_row_get p10 p95 p9 p85 p8 p75 p7 p65 k (proj1 Hnear)) as (p & Hp).
  exists (rpe_row p10 p95 p9 p85 p8 p75 p7 p65), x, c, k, p.
  split; [exact Hx|]. split; [exact Ex|]. split; [exact Hc|].
  split; [exact Ec|]. split; [exact Hrow|].
  split; [rewrite rpe_row_keys; exact Hk|].
  split; [exact Hnear|]. split; [exact Hp|].
  unfold getPercentFromRPETable. rewrite Hx, Hc, Hrow.
  rewrite rpe_row_keys, Hk. cbn [Map_get_opt]. rewrite Hp. reflexivity.
Qed.

Lemma Qround_half_up_nearest (x : Q) :
  Qabs (inject_Z (Qround_half_up x) - x) <= 1 # 2.
Proof.
  unfold Qround_half_up.
  pose proof (Qfloor_le (x + (1 # 2))) as H1.
  pose proof (Qlt_floor (x + (1 # 2))) as H2.
  rewrite inject_Z_plus in H2. change (inject_Z 1) with 1 in H2.
  set (n := inject_Z (Qfloor (x + (1 # 2)))) in *.
  apply Qabs_Qle_condition. split; lra.
Qed.

Lemma Qround_half_up_inject_Z (z : Z) : Qround_half_up (inject_Z z) = z.
Proof.
  unfold Qround_half_up.
  pose proof (Qfloor_le (inject_Z z + (1 # 2))) as H1.
  pose proof (Qlt_floor (inject_Z z + (1 # 2))) as H2.
  set (n := Qfloor (inject_Z z + (1 # 2))) in *.
  assert (A : inject_Z n < inject_Z (z + 1)).
  { rewrite inject_Z_plus. change (inject_Z 1) with 1. lra. }
  assert (B : inject_Z z < inject_Z (n + 1)) by lra.
  rewrite <- Zlt_Qlt in A, B. lia.
Qed.

Lemma stored_proper (r : Z) (k k' : Q) : k == k' -> stored r k = stored r k'.
Proof.
  intro E. unfold stored.
  destruct (Map_get RPE_TABLE (Fin (inject_Z r))) as [row|]; [|reflexivity].
  apply Map_get_proper. exact E.
Qed.

Lemma rpe_keys_range (k : Q) : In k rpe_keys -> 6.5 <= k <= 10.
Proof.
  unfold rpe_keys. intro H.
  repeat (destruct H as [<-|H]; [split; discriminate|]).
  destruct H.
Qed.

Lemma nearest_key_self (keys : list Q) (k k' : Q) :
  In k keys -> nearest_key keys k k' -> k' == k.
Proof.
  intros Hin [_ H]. destruct (H k Hin) as [Hle _].
  assert (E : Qabs (k - k) == 0).
  { setoid_replace (k - k) with 0 by ring. reflexivity. }
  rewrite E in Hle.
  apply Qabs_Qle_condition in Hle. lra.
Qed.

Lemma getPercentFromRPETable_stored (reps RPE : Q) :
  exists k, nearest_key rpe_keys (clampRPE RPE) k /\
    stored (clampReps reps) k
    = Some (getPercentFromRPETable (Fin reps) (Fin RPE)).
Proof.
  destruct (getPercentFromRPETable_steps reps RPE)
    as (row & x & c & k & p & Hx & Ex & Hc & Ec & Hrow & Hk & Hnear & Hp & Hres).
  exists k. split.
  - apply (nearest_key_proper rpe_keys c); assumption.
  - unfold stored.
    rewrite <- (Map_get_proper RPE_TABLE (Fin x) (Fin (inject_Z (clampReps reps))) Ex).
    rewrite Hrow, Hp, Hres. reflexivity.
Qed.

(** C6. On every real reps and RPE the lookup clamps reps (rounded to the
    nearest integer) to [1,12] and RPE to [6.5,10], then returns the stored
    percentage at the key of that row nearest to the clamped RPE, the
    higher key on a tie (that key is unique); on a native (reps, key) pair
    it returns the stored percentage itself, and an RPE above 10, infinite
    included, gives what RPE 10 gives; likewise below 6.5 and for infinite
    reps. *)
Theorem getPercentFromRPETable_clamp_nearest (reps RPE : Q) :
  (6.5 <= clampRPE RPE <= 10 /\ (1 <= clampReps reps <= 12)%Z) /\
  (exists k,
     nearest_key rpe_keys (clampRPE RPE) k /\
     stored (clampReps reps) k
     = Some (getPercentFromRPETable (Fin reps) (Fin RPE))) /\
  Qabs (inject_Z (Qround_half_up reps) - reps) <= 1 # 2 /\
  (forall (r : Z) (k : Q), (1 <= r <= 12)%Z -> In k rpe_keys ->
     stored r k = Some (getPercentFromRPETable (Fin (inject_Z r)) (Fin k))) /\
  (10 <= RPE ->
     getPercentFromRPETable (Fin reps) (Fin RPE)
     = getPercentFromRPETable (Fin reps) (Fin 10)) /\
  getPercentFromRPETable (Fin reps) PInf
  = getPercentFromRPETable (Fin reps) (Fin 10) /\
  (RPE <= 6.5 ->
     getPercentFromRPETable (Fin reps) (Fin RPE)
     = getPercentFromRPETable (Fin reps) (Fin 6.5)) /\
  getPercentFromRPETable (Fin reps) NInf
  = getPercentFromRPETable (Fin reps) (Fin 6.5) /\
  getPercentFromRPETable PInf (Fin RPE)
  = getPercentFromRPETable (Fin 12) (Fin RPE) /\
  getPercentFromRPETable NInf (Fin RPE)
  = getPercentFromRPETable (Fin 1) (Fin RPE) /\
  (forall k1 k2 : Q,
     nearest_key rpe_keys (clampRPE RPE) k1 ->
     nearest_key rpe_keys (clampRPE RPE) k2 -> k1 == k2).
Proof.
  split; [split; [apply clampRPE_range | apply clampReps_range]|].
  split; [apply getPercentFromRPETable_stored|].
  split; [apply Qround_half_up_nearest|].
  split; [|split; [|split; [reflexivity|split;
    [|split; [reflexivity|split; [reflexivity|split;
       [reflexivity|apply nearest_key_unique]]]]]]].
  - intros r k Hr Hk.
    destruct (getPercentFromRPETable_stored (inject_Z r) k) as (k' & Hnear & Hst).
    assert (Er : clampReps (inject_Z r) = r).
    { unfold clampReps. rewrite Qround_half_up_inject_Z. lia. }
    rewrite Er in Hst. rewrite <- Hst.
    apply stored_proper. symmetry.
    apply (nearest_key_self rpe_keys); [exact Hk|].
    apply (nearest_key_proper rpe_keys (clampRPE k)); [|exact Hnear].
    pose proof (rpe_keys_range k Hk) as [Hlo Hhi].
    unfold clampRPE. rewrite (Q.min_r 10 k) by exact Hhi.
    rewrite Q.max_r by exact Hlo. reflexivity.
  - intro H. unfold getPercentFromRPETable.
    rewrite !min_Fin.
    assert (E : Qltb RPE 10 = false) by (apply Qltb_false_iff; exact H).
    rewrite E. reflexivity.
  - intro H. unfold getPercentFromRPETable.
    rewrite !min_Fin.
    assert (E1 : Qltb RPE 10 = true) by (apply Qltb_iff; lra).
    rewrite E1, !max_Fin.
    assert (E2 : Qltb 6.5 RPE = false) by (apply Qltb_false_iff; exact H).
    rewrite E2. reflexivity.
Qed.

Lemma getPercentFromRPETable_clamp_nearest_witness :
  stored 5 8 = Some (getPercentFromRPETable (Fin (inject_Z 5)) (Fin 8)) /\
  getPercentFromRPETable (Fin 5) (Fin 11) = getPercentFromRPETable (Fin 5) (Fin 10).
Proof.
  destruct (getPercentFromRPETable_clamp_nearest 5 11)
    as (_ & _ & _ & Hn & Hc & _).
  split.
  - apply Hn; [lia|]. unfold rpe_keys. simpl. tauto.
  - apply Hc. discriminate.
Defined.

(** C10. On every real reps and RPE both lookups of
    [getPercentFromRPETable] succeed (the clamped rep count has a row and
    the nearest key has an entry), so the result is a percentage stored in
    the table, lies in [58.6, 100], and is never the fallback 75. *)
Theorem getPercentFromRPETable_in_table (reps RPE : Q) :
  exists (repsMap : Map num) (closestRPE p : Q),
    Map_get RPE_TABLE (max (Fin 1) (min (Fin 12) (round (Fin reps))))
    = Some repsMap /\
    closestRPE_of (max (Fin 6.5) (min (Fin 10) (Fin RPE)))
      (sort_desc (Map_keys repsMap)) = Some (Fin closestRPE) /\
    Map_get repsMap (Fin closestRPE) = Some (Fin p) /\
    getPercentFromRPETable (Fin reps) (Fin RPE) = Fin p /\
    In (Fin p) table_values /\
    58.6 <= p <= 100 /\
    ~ p == 75.
Proof.
  destruct (getPercentFromRPETable_steps reps RPE)
    as (row & x & c & k & p & Hx & Ex & Hc & Ec & Hrow & Hk & Hnear & Hp & Hres).
  exists row, k, p.
  rewrite Hx, Hc.
  assert (Hin : In (Fin p) table_values)
    by (apply (table_values_In (Fin x) row (Fin k)); assumption).
  pose proof table_values_bounds as Hb.
  rewrite forallb_forall in Hb. specialize (Hb (Fin p) Hin).
  apply andb_prop in Hb. destruct Hb as [Hw Hf].
  unfold within in Hw. apply andb_prop in Hw. destruct Hw as [Hlo Hhi].
  apply Qle_bool_iff in Hlo, Hhi.
  unfold is_fallback, same_value_zero in Hf. apply negb_true_iff in Hf.
  apply Qeq_bool_false_iff in Hf.
  repeat split; assumption.
Qed.

(** The fallback is what a NaN rep count gets: no row has the key NaN. *)
Lemma getPercentFromRPETable_NaN_reps (RPE : num) :
  getPercentFromRPETable NaN RPE = Fin 75.
Proof. reflexivity. Qed.

(* ================================================================= *)
(** ** Zone classification *)

Lemma top_below_disjoint (reps RIR : num) (zone : TrainingGoal) :
  isInTopOfRange reps RIR zone && isBelowRange reps RIR zone = false.
Proof.
  unfold isInTopOfRange, isBelowRange, ge, gt.
  destruct (le (high (ZONE_PRESETS zone)) reps) eqn:Ehigh; [|reflexivity].
  destruct (le RIR (targetRIR (ZONE_PRESETS zone))) eqn:Erir; [|reflexivity].
  cbn [andb]. apply orb_false_intro.
  - destruct reps as [r| | |]; destruct zone; cbn in Ehigh |- *;
      try reflexivity; try discriminate;
      apply Qle_bool_iff in Ehigh; apply Qltb_false_iff; lra.
  - destruct RIR as [i| | |]; destruct zone; cbn in Erir |- *;
      try reflexivity; try discriminate;
      apply Qle_bool_iff in Erir; apply Qltb_false_iff; lra.
Qed.

(** C4 (as stated, refuted). No reps, RIR and goal make both predicates
    true, whatever numbers (infinite or NaN included) are supplied. *)
Lemma top_and_below_never_both :
  ~ exists (reps RIR : num) (zone : TrainingGoal),
      isInTopOfRange reps RIR zone = true /\ isBelowRange reps RIR zone = true.
Proof.
  intros (reps & RIR & zone & Htop & Hbelow).
  pose proof (top_below_disjoint reps RIR zone) as H.
  rewrite Htop, Hbelow in H. discriminate.
Qed.

(** C4 (amended). For each of the three goals and all reps and RIR,
    [isInTopOfRange] and [isBelowRange] are never both true: top-of-range
    needs reps >= high >= low and RIR <= targetRIR < targetRIR + 1. *)
Theorem isInTopOfRange_isBelowRange_exclusive
  (reps RIR : num) (zone : TrainingGoal) :
  isInTopOfRange reps RIR zone && isBelowRange reps RIR zone = false /\
  (low (ZONE_PRESETS zone) <=? high (ZONE_PRESETS zone))%num = true /\
  (targetRIR (ZONE_PRESETS zone) <? targetRIR (ZONE_PRESETS zone) + Fin 1)%num
  = true.
Proof.
  split; [apply top_below_disjoint|].
  destruct zone; split; reflexivity.
Qed.

(* ================================================================= *)
(** ** Selecting the top set *)

Lemma LoggedSet_ok_inv (s : In.PreviousSet) :
  LoggedSet_ok s = true ->
  exists w r i,
    In.weight s = Fin w /\ In.reps s = Fin r /\
    nullish (In.rir s) (Fin 2) = Fin i /\ 0 < w /\ 0 < r /\ 0 <= i.
Proof.
  unfold LoggedSet_ok, positive. intro H.
  apply andb_prop in H. destruct H as [H Hrir].
  apply andb_prop in H. destruct H as [Hw Hr].
  destruct (In.weight s) as [w| | |]; try discriminate.
  destruct (In.reps s) as [r| | |]; try discriminate.
  apply Qltb_iff in Hw, Hr.
  destruct (In.rir s) as [[i| | |]|]; try discriminate.
  - apply Qle_bool_iff in Hrir. exists w, r, i. cbn. repeat split; assumption.
  - exists w, r, 2. cbn. repeat split; try assumption. discriminate.
Qed.

(** Order facts on [num]; a comparison that holds has no NaN operand. *)
Lemma lt_trans_num (a b c : num) :
  (a <? b)%num = true -> (b <? c)%num = true -> (a <? c)%num = true.
Proof.
  destruct a, b, c; cbn [lt]; try discriminate; try reflexivity.
  rewrite !Qltb_iff. apply Qlt_trans.
Qed.

Lemma lt_le_trans_num (a b c : num) :
  (a <? b)%num = true -> (b <=? c)%num = true -> (a <? c)%num = true.
Proof.
  destruct a, b, c; cbn [lt le]; try discriminate; try reflexivity.
  rewrite !Qltb_iff, Qle_bool_iff. apply Qlt_le_trans.
Qed.

Lemma lt_not_le_num (a b : num) :
  (a <? b)%num = true -> (b <=? a)%num = false.
Proof.
  destruct a, b; cbn [lt le]; try discriminate; try reflexivity.
  rewrite Qltb_iff. intro H.
  destruct (Qle_bool q0 q) eqn:E; [|reflexivity].
  apply Qle_bool_iff in E. exfalso. apply (Qlt_not_le _ _ H E).
Qed.




(** *** The loop on the scores the engine computes *)

Section TopSetLoop.

Variable sc : In.PreviousSet -> num.
Variable step : option TopSet * num -> In.PreviousSet -> option TopSet * num.
Hypothesis step_eq :
  forall (top : option TopSet) (m : num) (s : In.PreviousSet),
    step (top, m) s
    = if (m <? sc s)%num then (Some (as_topSet s), sc s) else (top, m).

(** Whatever the scoring, a set is selected only if its score exceeds the
    running maximum; the selected set strictly beats every earlier set and
    is not beaten by any later one. *)
Lemma topSet_loop (l : list In.PreviousSet) :
  forall (top : option TopSet) (m : num),
    (fold_left step l (top, m) = (top, m) /\
     forall x, In x l -> (m <? sc x)%num = false)
    \/
    (exists pre s post,
        l = pre ++ s :: post /\
        fold_left step l (top, m) = (Some (as_topSet s), sc s) /\
        (m <? sc s)%num = true /\
        (forall x, In x pre -> (sc s <=? sc x)%num = false) /\
        (forall x, In x post -> (sc s <? sc x)%num = false)).
Proof.
  induction l as [|a l IH]; intros top m.
  - left. split; [reflexivity | intros x []].
  - cbn [fold_left]. rewrite (step_eq top m a).
    destruct (m <? sc a)%num eqn:Cmp.
    + destruct (IH (Some (as_topSet a)) (sc a))
        as [[Hfold Hall] | (pre & s & post & El & Hfold & Hgt & Hpre & Hpost)].
      * right. exists [], a, l. rewrite Hfold.
        split; [reflexivity|]. split; [reflexivity|]. split; [exact Cmp|].
        split; [intros x [] | exact Hall].
      * right. exists (a :: pre), s, post. rewrite Hfold, El.
        split; [reflexivity|]. split; [reflexivity|].
        split; [apply (lt_trans_num m (sc a)); assumption|].
        split; [|exact Hpost].
        intros x [<-|Hx]; [apply lt_not_le_num; exact Hgt | apply Hpre; exact Hx].
    + destruct (IH top m)
        as [[Hfold Hall] | (pre & s & post & El & Hfold & Hgt & Hpre & Hpost)].
      * left. split; [exact Hfold|].
        intros x [<-|Hx]; [exact Cmp | apply Hall; exact Hx].
      * right. exists (a :: pre), s, post. rewrite Hfold, El.
        split; [reflexivity|]. split; [reflexivity|]. split; [exact Hgt|].
        split; [|exact Hpost].
        intros x [<-|Hx]; [|apply Hpre; exact Hx].
        destruct (sc s <=? sc a)%num eqn:E; [|reflexivity].
        rewrite (lt_le_trans_num m (sc s) (sc a) Hgt E) in Cmp.
        discriminate.
Qed.

End TopSetLoop.

Lemma F64_topSet_fold (l : list In.PreviousSet) (top : option TopSet) (m : num) :
  (fold_left F64.topSet_step l (top, m) = (top, m) /\
   forall x, In x l -> (m <? score64 x)%num = false)
  \/
  (exists pre s post,
      l = pre ++ s :: post /\
      fold_left F64.topSet_step l (top, m) = (Some (as_topSet s), score64 s) /\
      (m <? score64 s)%num = true /\
      (forall x, In x pre -> (score64 s <=? score64 x)%num = false) /\
      (forall x, In x post -> (score64 s <? score64 x)%num = false)).
Proof.
  apply (topSet_loop score64 F64.topSet_step). intros. reflexivity.
Qed.

(** Comparisons of two numbers neither of which is NaN. *)
Lemma le_false_lt (a b : num) :
  a <> NaN -> b <> NaN -> (a <=? b)%num = false -> (b <? a)%num = true.
Proof.
  destruct a, b; cbn [le lt]; intros Ha Hb; try congruence; try reflexivity.
  intro H. apply Qltb_iff. apply Qnot_le_lt. intro L.
  apply Qle_bool_iff in L. congruence.
Qed.

Lemma lt_false_le (a b : num) :
  a <> NaN -> b <> NaN -> (a <? b)%num = false -> (b <=? a)%num = true.
Proof.
  destruct a, b; cbn [le lt]; intros Ha Hb; try congruence; try reflexivity.
  intro H. apply Qle_bool_iff, Qltb_false_iff. exact H.
Qed.

(** Rounding keeps a number at or above a binary64 number below it. *)
Lemma fl_above (x : Q) (a : num) :
  is_double (Fin x) = true -> (Fin x <=? a)%num = true ->
  (Fin x <=? F64.fl a)%num = true.
Proof.
  intros D H. destruct a as [y| | |]; cbn [F64.fl]; try exact H.
  cbn [le] in H. apply Qle_bool_iff in H.
  pose proof (round64_mono x y H) as M.
  unfold is_double in D. cbn [F64.fl] in D.
  destruct (F64.round64 x) as [x'| | |]; cbn [same_value_zero] in D;
    try discriminate.
  apply Qeq_bool_iff in D.
  destruct (F64.round64 y) as [y'| | |]; cbn [le] in M |- *;
    try discriminate; try reflexivity.
  apply Qle_bool_iff. apply Qle_bool_iff in M. rewrite <- D. exact M.
Qed.

Lemma is_double_0 : is_double (Fin 0) = true.
Proof. reflexivity. Qed.

Lemma is_double_1 : is_double (Fin 1) = true.
Proof. reflexivity. Qed.

(** The computed score of a set of the data model is at least its weight:
    it is positive, possibly infinite, never NaN. *)
Lemma score64_above (s : In.PreviousSet) :
  LoggedSet_ok s = true -> double_set s = true ->
  exists w, In.weight s = Fin w /\ 0 < w /\ (Fin w <=? score64 s)%num = true.
Proof.
  intros Hok Hd.
  destruct (LoggedSet_ok_inv s Hok) as (w & r & i & Ew & Er & Ei & Hw & Hr & Hi).
  unfold double_set in Hd. rewrite Ew in Hd.
  apply andb_prop in Hd. destruct Hd as [Hd _].
  apply andb_prop in Hd. destruct Hd as [Dw _].
  exists w. split; [exact Ew|]. split; [exact Hw|].
  unfold score64, F64.e1rmPerformance. rewrite Ew, Er, Ei.
  assert (A : (Fin 0 <=? F64.add (Fin r) (Fin i))%num = true).
  { apply fl_above; [exact is_double_0|]. cbn [JS.add le].
    apply Qle_bool_iff. lra. }
  assert (B : (Fin 0 <=? F64.div (F64.add (Fin r) (Fin i)) (Fin 30))%num = true).
  { apply fl_above; [exact is_double_0|].
    destruct (F64.add (Fin r) (Fin i)) as [a| | |]; try discriminate.
    - cbn [le] in A. apply Qle_bool_iff in A.
      change (JS.div (Fin a) (Fin 30)) with (Fin (a / 30)).
      cbn [le]. apply Qle_bool_iff.
      apply Qle_shift_div_l; [reflexivity | lra].
    - reflexivity. }
  assert (C : (Fin 1 <=? F64.add (Fin 1)
                 (F64.div (F64.add (Fin r) (Fin i)) (Fin 30)))%num = true).
  { apply fl_above; [exact is_double_1|].
    destruct (F64.div (F64.add (Fin r) (Fin i)) (Fin 30)) as [b| | |];
      try discriminate.
    - cbn [le] in B. apply Qle_bool_iff in B.
      cbn [JS.add le]. apply Qle_bool_iff. lra.
    - reflexivity. }
  apply fl_above; [exact Dw|].
  destruct (F64.add (Fin 1) (F64.div (F64.add (Fin r) (Fin i)) (Fin 30)))
    as [c| | |]; try discriminate.
  - cbn [le] in C. apply Qle_bool_iff in C.
    cbn [JS.mul le]. apply Qle_bool_iff.
    assert (E : w == w * 1) by ring. rewrite E at 1.
    apply Qmult_le_l; assumption.
  - cbn [JS.mul].
    assert (Sg : Qsign w = Gt) by (unfold Qsign; apply Qgt_alt; exact Hw).
    rewrite Sg. reflexivity.
Qed.

Lemma above_pos (w : Q) (a : num) :
  0 < w -> (Fin w <=? a)%num = true -> (Fin 0 <? a)%num = true /\ a <> NaN.
Proof.
  intros Hw H. destruct a as [y| | |]; try discriminate.
  - cbn [le] in H. apply Qle_bool_iff in H. split; [|discriminate].
    cbn [lt]. apply Qltb_iff. lra.
  - split; [reflexivity | discriminate].
Qed.

Lemma F64_findTopSet_first_max (l : list In.PreviousSet) :
  forallb LoggedSet_ok l = true -> forallb double_set l = true -> l <> [] ->
  exists pre s post,
    l = pre ++ s :: post /\
    F64.findTopSet l = Some (as_topSet s) /\
    (forall x, In x pre -> (score64 x <? score64 s)%num = true) /\
    (forall x, In x post -> (score64 x <=? score64 s)%num = true).
Proof.
  intros Hok Hd Hne.
  assert (Hsc : forall x, In x l ->
                  (Fin 0 <? score64 x)%num = true /\ score64 x <> NaN).
  { intros x Hx. rewrite forallb_forall in Hok, Hd.
    destruct (score64_above x (Hok x Hx) (Hd x Hx)) as (w & _ & Hw & Ha).
    apply (above_pos w); assumption. }
  unfold F64.findTopSet.
  destruct (F64_topSet_fold l None (Fin 0))
    as [[Hfold Hall] | (pre & s & post & El & Hfold & Hgt & Hpre & Hpost)].
  - destruct l as [|a l]; [contradiction|].
    destruct (Hsc a (or_introl eq_refl)) as [Hpos _].
    rewrite (Hall a (or_introl eq_refl)) in Hpos. discriminate.
  - exists pre, s, post. rewrite Hfold.
    split; [exact El|]. split; [reflexivity|].
    assert (Hs : score64 s <> NaN).
    { apply Hsc. rewrite El. apply in_or_app. right. left. reflexivity. }
    split; intros x Hx.
    + apply le_false_lt; [exact Hs | | apply Hpre; exact Hx].
      apply Hsc. rewrite El. apply in_or_app. left. exact Hx.
    + apply lt_false_le; [exact Hs | | apply Hpost; exact Hx].
      apply Hsc. rewrite El. apply in_or_app. right. right. exact Hx.
Qed.

Lemma F64_analyse_top (ex : In.PreviousExerciseInstance) (t : TopSet) :
  F64.findTopSet (In.sets ex) = Some t ->
  a_topSet (F64.analyse ex)
  = Some {| top := t; rpe := F64.sub (Fin 10) (ts_rir t) |} /\
  a_currentBaseline (F64.analyse ex)
  = Some (F64.e1rmPerceived (ts_weight t) (ts_reps t) (ts_rir t)
            F64.NSCA_BASE_ROW F64.perRirDropPct) /\
  a_perceived1RM (F64.analyse ex)
  = F64.e1rmPerceived (ts_weight t) (ts_reps t) (ts_rir t)
      F64.NSCA_BASE_ROW F64.perRirDropPct /\
  a_estimated1RM (F64.analyse ex)
  = F64.e1rmPerformance (ts_weight t) (ts_reps t) (ts_rir t).
Proof.
  intro H. unfold F64.analyse. rewrite H. repeat split; reflexivity.
Qed.

Lemma F64_analyse_none (ex : In.PreviousExerciseInstance) :
  F64.findTopSet (In.sets ex) = None ->
  F64.analyse ex
  = {| a_id := In.id ex; a_name := In.name ex; a_group := In.group ex;
       a_topSet := None; a_estimated1RM := Fin 0; a_perceived1RM := Fin 0;
       a_currentBaseline := None; a_rpeChartPercent := None |}.
Proof. intro H. unfold F64.analyse. rewrite H. reflexivity. Qed.

(** C7. The top set is the first logged set attaining the greatest Epley
    score as the engine computes it in binary64: it strictly beats every
    earlier set and no later set beats it (the loop compares with a strict
    [>]).  Logged sets are those of the data model (positive weight and
    reps, RIR >= 0 or absent, binary64 numbers); for arbitrary numbers the
    same holds among the scores above 0, the loop's initial maximum.  An
    exercise without sets gets the zero prescription with no sets, and
    [POST] gives every exercise its own result, in order, whatever the
    others contain.  Two scores that tie in real arithmetic need not tie
    in binary64: of 45 x 10 and 52.5 x 4 at RIR 2 the engine selects the
    second. *)
Theorem topSet_first_maximum
  (unit : WeightUnit) (goal : Goal) (ex : In.PreviousExerciseInstance) :
  (In.sets ex <> [] -> forallb LoggedSet_ok (In.sets ex) = true ->
   forallb double_set (In.sets ex) = true ->
   exists pre s post,
     In.sets ex = pre ++ s :: post /\
     F64.findTopSet (In.sets ex) = Some (as_topSet s) /\
     a_topSet (F64.analyse ex)
     = Some {| top := as_topSet s;
               rpe := F64.sub (Fin 10) (ts_rir (as_topSet s)) |} /\
     (forall x, In x pre -> (score64 x <? score64 s)%num = true) /\
     (forall x, In x post -> (score64 x <=? score64 s)%num = true)) /\
  ((exists pre s post,
      In.sets ex = pre ++ s :: post /\
      F64.findTopSet (In.sets ex) = Some (as_topSet s) /\
      (Fin 0 <? score64 s)%num = true /\
      (forall x, In x pre -> (score64 s <=? score64 x)%num = false) /\
      (forall x, In x post -> (score64 s <? score64 x)%num = false))
   \/ (F64.findTopSet (In.sets ex) = None /\
       forall x, In x (In.sets ex) -> (Fin 0 <? score64 x)%num = false)) /\
  (In.sets ex = [] ->
   F64.findTopSet (In.sets ex) = None /\
   a_topSet (F64.analyse ex) = None /\
   F64.recommend unit goal (F64.analyse ex)
   = {| Out.id := In.id ex; Out.name := In.name ex; Out.group := In.group ex;
        Out.perceived1RM := Fin 0; Out.estimated1RM := Fin 0;
        Out.topSetRPE := Fin 0;
        Out.recommended :=
          {| Out.targetPercentRange :=
               (low (ZONE_PRESETS goal), high (ZONE_PRESETS goal));
             Out.targetReps := defaultReps (ZONE_PRESETS goal);
             Out.sets := [] |} |}) /\
  (forall (host : Clock.Host) (before after : list In.PreviousExerciseInstance)
          (date split : option string) (tomorrow : Z),
      Clock.setDate_next host = Some tomorrow ->
      exists w d,
        F64.POST host
          {| In.previousWorkout :=
               Some {| In.date := date; In.split := split; In.goal := Some goal;
                       In.exerciseInstances := Some (before ++ ex :: after) |};
             In.weightUnit := Some unit |}
        = Out.Ok w d /\
        Out.exerciseInstances w
        = List.map (fun e => F64.recommend unit goal (F64.analyse e)) before
          ++ F64.recommend unit goal (F64.analyse ex)
          :: List.map (fun e => F64.recommend unit goal (F64.analyse e)) after /\
        Out.exercises d
        = List.map (fun e => detail (F64.analyse e)) (before ++ ex :: after)) /\
  (F64.findTopSet near_tie_sets = option_map as_topSet (nth_error near_tie_sets 1) /\
   List.map Out.weight
     (Out.sets (Out.recommended
        (F64.recommend lbs HYPERTROPHY (F64.analyse near_tie_exercise))))
   = [F64.lit 42.5; F64.lit 42.5; F64.lit 42.5]).
Proof.
  split; [|split; [|split; [|split]]].
  - intros Hne Hok Hd.
    destruct (F64_findTopSet_first_max (In.sets ex) Hok Hd Hne)
      as (pre & s & post & El & Htop & Hpre & Hpost).
    exists pre, s, post.
    split; [exact El|]. split; [exact Htop|].
    split; [apply (F64_analyse_top ex _ Htop)|].
    split; assumption.
  - unfold F64.findTopSet.
    destruct (F64_topSet_fold (In.sets ex) None (Fin 0))
      as [[Hfold Hall] | (pre & s & post & El & Hfold & Hgt & Hpre & Hpost)].
    + right. rewrite Hfold. split; [reflexivity | exact Hall].
    + left. exists pre, s, post. rewrite Hfold. repeat split; assumption.
  - intro Hnil.
    assert (Hnone : F64.findTopSet (In.sets ex) = None)
      by (rewrite Hnil; reflexivity).
    split; [exact Hnone|].
    rewrite (F64_analyse_none ex Hnone). split; reflexivity.
  - intros host before after date split tomorrow Ht. unfold F64.POST.
    cbn [In.previousWorkout In.exerciseInstances In.weightUnit In.goal nullish].
    rewrite Ht. do 2 eexists. split; [reflexivity|].
    cbn [Out.exerciseInstances Out.exercises].
    rewrite !List.map_map, List.map_app. split; reflexivity.
  - split; vm_compute; reflexivity.
Qed.

Lemma topSet_first_maximum_witness :
  exists pre s post,
    In.sets tie_exercise = pre ++ s :: post /\
    F64.findTopSet (In.sets tie_exercise) = Some (as_topSet s) /\
    a_topSet (F64.analyse tie_exercise)
    = Some {| top := as_topSet s;
              rpe := F64.sub (Fin 10) (ts_rir (as_topSet s)) |} /\
    (forall x, In x pre -> (score64 x <? score64 s)%num = true) /\
    (forall x, In x post -> (score64 x <=? score64 s)%num = true).
Proof.
  apply (proj1 (topSet_first_maximum lbs HYPERTROPHY tie_exercise)).
  - discriminate.
  - reflexivity.
  - vm_compute. reflexivity.
Defined.

(* ================================================================= *)
(** ** The planned weight *)

Lemma zone_basePercent (goal : Goal) :
  clampToZoneReps goal (Some (defaultReps (ZONE_PRESETS goal)))
  = defaultReps (ZONE_PRESETS goal) /\
  exists pct,
    getPercentFromRPETable (defaultReps (ZONE_PRESETS goal))
      (Fin 10 - targetRIR (ZONE_PRESETS goal))%num = Fin pct /\
    0 < pct.
Proof.
  destruct goal; (split; [reflexivity | eexists; split; reflexivity]).
Qed.

Lemma Qsign_pos (x : Q) : 0 < x -> Qsign x = Gt.
Proof. intro H. unfold Qsign. apply Qgt_alt. exact H. Qed.


Lemma truthy_Fin (b : Q) : ~ b == 0 -> truthy (Fin b) = true.
Proof.
  intro H. cbn [truthy]. apply negb_true_iff, Qeq_bool_false_iff. exact H.
Qed.



Lemma plannedWeight_base_eq (goal : Goal) (baseline : num) (pct : Q) :
  getPercentFromRPETable (defaultReps (ZONE_PRESETS goal))
    (Fin 10 - targetRIR (ZONE_PRESETS goal))%num = Fin pct ->
  plannedWeight_base goal baseline
  = (round (baseline * Fin pct / Fin 100 / Fin 2.5) * Fin 2.5)%num.
Proof.
  intro H. unfold plannedWeight_base.
  rewrite (proj1 (zone_basePercent goal)).
  unfold loadFromBaselineUsingPercent, roundIncrement. rewrite H. reflexivity.
Qed.

(** *** The planned weight as the engine computes it *)









(* ================================================================= *)
(** ** The overload adjustment *)

Lemma max_floor (a b : num) : b <> NaN -> a <> NaN -> (a <=? max a b)%num = true.
Proof.
  destruct a as [x| | |], b as [y| | |]; intros Hb Ha;
    try congruence; try reflexivity.
  - rewrite max_Fin. cbn [le]. apply Qle_bool_iff.
    destruct (Qltb x y) eqn:E.
    + apply Qltb_iff in E. lra.
    + apply Qle_refl.
  - cbn [max lt le]. apply Qle_bool_iff, Qle_refl.
Qed.

Lemma plannedWeight_base_not_NaN (goal : Goal) (baseline : num) :
  truthy baseline = true -> plannedWeight_base goal baseline <> NaN.
Proof.
  intro H. destruct (zone_basePercent goal) as (_ & pct & Hpct & Hpos).
  rewrite (plannedWeight_base_eq goal baseline pct Hpct).
  destruct baseline as [b| | |]; try discriminate.
  - cbn [mul]. rewrite (Qsign_pos pct Hpos). cbn. discriminate.
  - cbn [mul]. rewrite (Qsign_pos pct Hpos). cbn. discriminate.
Qed.

Lemma add_not_NaN (a : num) (q : Q) : a <> NaN -> (a + Fin q)%num <> NaN.
Proof. destruct a; cbn; congruence. Qed.

Lemma sub_not_NaN (a : num) (q : Q) : a <> NaN -> (a - Fin q)%num <> NaN.
Proof. destruct a; cbn; congruence. Qed.

(** C2 (as stated, refuted).  With one set of 1 x 8 at RIR 2 and goal
    HYPERTROPHY a top set is selected, neither predicate holds, and the
    prescribed weight is 0; with 100 x 60 at RIR 0 the set is in the top of
    the range, the planned weight is -410, and the adjustment yields 2.5
    rather than -410 + 2.5. *)
Lemma overload_adjustment_counterexample :
  findTopSet (In.sets light_exercise) = Some light_top /\
  isInTopOfRange (ts_reps light_top) (ts_rir light_top) HYPERTROPHY = false /\
  isBelowRange (ts_reps light_top) (ts_rir light_top) HYPERTROPHY = false /\
  plannedWeight_adjusted HYPERTROPHY light_top (perceived_of light_top) =n= Fin 0 /\
  List.map (fun s => (Out.weight s <=? Fin 0)%num)
    (Out.sets (Out.recommended
                 (recommend lbs HYPERTROPHY (analyse light_exercise))))
  = [true; true; true] /\
  isInTopOfRange (ts_reps sixty_top) (ts_rir sixty_top) HYPERTROPHY = true /\
  plannedWeight_base HYPERTROPHY (perceived_of sixty_top) =n= Fin (-410) /\
  plannedWeight_adjusted HYPERTROPHY sixty_top (perceived_of sixty_top) =n= Fin 2.5 /\
  ~ plannedWeight_adjusted HYPERTROPHY sixty_top (perceived_of sixty_top)
    =n= (plannedWeight_base HYPERTROPHY (perceived_of sixty_top) + Fin 2.5)%num.
Proof.
  repeat split; try (vm_compute; reflexivity).
  vm_compute. discriminate.
Qed.

(** C2 (amended).  For an exercise with a selected top set and a truthy
    baseline: in the top of the range the planned weight becomes
    max(2.5, planned + 2.5), which is planned + 2.5 whenever planned >= 0;
    otherwise, below the range, it becomes max(2.5, planned - 2.5); the
    top-of-range test comes first; and whenever either predicate holds the
    adjusted weight is at least 2.5, hence positive. *)
Theorem overload_adjustment
  (goal : Goal) (topSet : TopSet) (currentBaseline : num) :
  let plannedWeight := plannedWeight_base goal currentBaseline in
  let inTopOfRange := isInTopOfRange (ts_reps topSet) (ts_rir topSet) goal in
  let belowRange := isBelowRange (ts_reps topSet) (ts_rir topSet) goal in
  let adjusted := plannedWeight_adjusted goal topSet currentBaseline in
  (inTopOfRange = true ->
     adjusted = max (Fin 2.5) (plannedWeight + Fin 2.5)%num) /\
  (inTopOfRange = true -> (Fin 0 <=? plannedWeight)%num = true ->
     adjusted =n= (plannedWeight + Fin 2.5)%num) /\
  (inTopOfRange = false -> belowRange = true ->
     adjusted = max (Fin 2.5) (plannedWeight - Fin 2.5)%num) /\
  (truthy currentBaseline = true -> inTopOfRange || belowRange = true ->
     (Fin 2.5 <=? adjusted)%num = true /\ (Fin 0 <? adjusted)%num = true).
Proof.
  cbn zeta. unfold plannedWeight_adjusted, overloadAdjust, roundIncrement.
  set (p := plannedWeight_base goal currentBaseline).
  set (inTop := isInTopOfRange (ts_reps topSet) (ts_rir topSet) goal).
  set (below := isBelowRange (ts_reps topSet) (ts_rir topSet) goal).
  split; [|split; [|split]].
  - intros ->. reflexivity.
  - intros -> Hp. destruct p as [x| | |]; try discriminate.
    + cbn [le] in Hp. apply Qle_bool_iff in Hp.
      change (Fin x + Fin 2.5)%num with (Fin (x + 2.5)). rewrite max_Fin.
      destruct (Qltb 2.5 (x + 2.5)) eqn:E.
      * apply num_eq_refl.
      * apply Qltb_false_iff in E. cbn [num_eq]. lra.
    + reflexivity.
  - intros -> ->. reflexivity.
  - intros Htruthy Hor.
    assert (Hp : p <> NaN) by (apply plannedWeight_base_not_NaN; exact Htruthy).
    assert (Hfloor : (Fin 2.5 <=?
                        (if inTop then max (Fin 2.5) (p + Fin 2.5)%num
                         else if below then max (Fin 2.5) (p - Fin 2.5)%num
                              else p))%num = true).
    { destruct inTop.
      - apply max_floor; [apply add_not_NaN; exact Hp | discriminate].
      - destruct below; [|discriminate].
        apply max_floor; [apply sub_not_NaN; exact Hp | discriminate]. }
    split; [exact Hfloor|].
    apply (lt_le_trans_num (Fin 0) (Fin 2.5)); [reflexivity | exact Hfloor].
Qed.

Lemma overload_adjustment_witness :
  (isInTopOfRange (ts_reps sixty_top) (ts_rir sixty_top) HYPERTROPHY = true /\
   truthy (perceived_of sixty_top) = true /\
   plannedWeight_adjusted HYPERTROPHY sixty_top (perceived_of sixty_top)
   = max (Fin 2.5)
       (plannedWeight_base HYPERTROPHY (perceived_of sixty_top) + Fin 2.5)%num /\
   (Fin 2.5 <=? plannedWeight_adjusted HYPERTROPHY sixty_top
                  (perceived_of sixty_top))%num = true /\
   (Fin 0 <? plannedWeight_adjusted HYPERTROPHY sixty_top
               (perceived_of sixty_top))%num = true) /\
  (isInTopOfRange (ts_reps below_top) (ts_rir below_top) HYPERTROPHY = false /\
   isBelowRange (ts_reps below_top) (ts_rir below_top) HYPERTROPHY = true /\
   plannedWeight_adjusted HYPERTROPHY below_top (perceived_of below_top)
   = max (Fin 2.5)
       (plannedWeight_base HYPERTROPHY (perceived_of below_top) - Fin 2.5)%num) /\
  (isInTopOfRange (ts_reps bench_top) (ts_rir bench_top) STRENGTH = true /\
   (Fin 0 <=? plannedWeight_base STRENGTH (perceived_of bench_top))%num = true /\
   plannedWeight_adjusted STRENGTH bench_top (perceived_of bench_top)
   =n= (plannedWeight_base STRENGTH (perceived_of bench_top) + Fin 2.5)%num).
Proof.
  split; [|split].
  - destruct (overload_adjustment HYPERTROPHY sixty_top (perceived_of sixty_top))
      as (Htop & _ & _ & Hpos).
    split; [reflexivity|]. split; [reflexivity|].
    split; [apply Htop; reflexivity|].
    apply Hpos; reflexivity.
  - destruct (overload_adjustment HYPERTROPHY below_top (perceived_of below_top))
      as (_ & _ & Hbelow & _).
    split; [reflexivity|]. split; [reflexivity|].
    apply Hbelow; reflexivity.
  - destruct (overload_adjustment STRENGTH bench_top (perceived_of bench_top))
      as (_ & Hadd & _ & _).
    split; [reflexivity|]. split; [reflexivity|].
    apply Hadd; reflexivity.
Defined.

(* ================================================================= *)
(** ** Unit handling of the final weight *)




(* ================================================================= *)
(** ** Determinism of the handler *)








(* ================================================================= *)
(** ** Further properties of the table lookup *)

Lemma Qabs_le_mid_high (c k1 k2 : Q) :
  k2 < k1 -> Qabs (c - k1) <= Qabs (c - k2) -> k1 + k2 <= 2 * c.
Proof.
  intros Hk H.
  destruct (Qlt_le_dec c k1) as [Hc|Hc]; [|lra].
  rewrite (Qabs_neg (c - k1)) in H by lra.
  destruct (Qlt_le_dec c k2) as [Hc2|Hc2].
  - rewrite (Qabs_neg (c - k2)) in H by lra. lra.
  - rewrite (Qabs_pos (c - k2)) in H by lra. lra.
Qed.

Lemma Qabs_le_mid_low (c k1 k2 : Q) :
  k2 < k1 -> Qabs (c - k2) <= Qabs (c - k1) -> 2 * c <= k1 + k2.
Proof.
  intros Hk H.
  destruct (Qlt_le_dec k2 c) as [Hc|Hc]; [|lra].
  rewrite (Qabs_pos (c - k2)) in H by lra.
  destruct (Qlt_le_dec c k1) as [Hc1|Hc1].
  - rewrite (Qabs_neg (c - k1)) in H by lra. lra.
  - rewrite (Qabs_pos (c - k1)) in H by lra. lra.
Qed.

(** A larger target never has a smaller nearest key. *)
Lemma nearest_key_mono (keys : list Q) (c1 c2 k1 k2 : Q) :
  c1 <= c2 -> nearest_key keys c1 k1 -> nearest_key keys c2 k2 -> k1 <= k2.
Proof.
  intros Hc [In1 H1] [In2 H2].
  destruct (Qlt_le_dec k2 k1) as [Hlt|Hle]; [exfalso|exact Hle].
  destruct (H1 k2 In2) as [A1 _]. destruct (H2 k1 In1) as [A2 T2].
  pose proof (Qabs_le_mid_high c1 k1 k2 Hlt A1) as M1.
  pose proof (Qabs_le_mid_low c2 k1 k2 Hlt A2) as M2.
  assert (E : Qabs (c2 - k2) == Qabs (c2 - k1)).
  { rewrite (Qabs_pos (c2 - k2)) by lra. rewrite (Qabs_neg (c2 - k1)) by lra. lra. }
  specialize (T2 E). lra.
Qed.

Lemma clampRPE_mono (a b : Q) : a <= b -> clampRPE a <= clampRPE b.
Proof.
  intro H. unfold clampRPE.
  apply Q.max_le_compat_l. apply Q.min_le_compat_l. exact H.
Qed.

Lemma clampReps_mono (a b : Q) : a <= b -> (clampReps a <= clampReps b)%Z.
Proof.
  intro H. unfold clampReps, Qround_half_up.
  assert (L : (Qfloor (a + (1 # 2)) <= Qfloor (b + (1 # 2)))%Z)
    by (apply Qfloor_resp_le; lra).
  lia.
Qed.

Lemma table_monotone_true : table_monotone = true.
Proof. vm_compute. reflexivity. Qed.

Lemma rep_rows_In (r : Z) : (1 <= r <= 12)%Z -> In r rep_rows.
Proof.
  intro H. unfold rep_rows.
  assert (C : (r = 1 \/ r = 2 \/ r = 3 \/ r = 4 \/ r = 5 \/ r = 6 \/ r = 7 \/
               r = 8 \/ r = 9 \/ r = 10 \/ r = 11 \/ r = 12)%Z) by lia.
  cbn [In]. intuition.
Qed.

Lemma storedQ_key_mono (r : Z) (k k' : Q) :
  (1 <= r <= 12)%Z -> In k rpe_keys -> In k' rpe_keys -> k <= k' ->
  storedQ r k <= storedQ r k'.
Proof.
  intros Hr Hk Hk' Hle.
  pose proof table_monotone_true as T. unfold table_monotone in T.
  apply andb_prop in T. destruct T as [T _].
  rewrite forallb_forall in T. specialize (T r (rep_rows_In r Hr)).
  rewrite forallb_forall in T. specialize (T k Hk).
  rewrite forallb_forall in T. specialize (T k' Hk').
  apply Qle_bool_iff in Hle. rewrite Hle in T. cbn [implb] in T.
  apply Qle_bool_iff. exact T.
Qed.

Lemma storedQ_row_mono (r r' : Z) (k : Q) :
  (1 <= r <= 12)%Z -> (1 <= r' <= 12)%Z -> In k rpe_keys -> (r <= r')%Z ->
  storedQ r' k <= storedQ r k.
Proof.
  intros Hr Hr' Hk Hle.
  pose proof table_monotone_true as T. unfold table_monotone in T.
  apply andb_prop in T. destruct T as [_ T].
  rewrite forallb_forall in T. specialize (T k Hk).
  rewrite forallb_forall in T. specialize (T r (rep_rows_In r Hr)).
  rewrite forallb_forall in T. specialize (T r' (rep_rows_In r' Hr')).
  apply Z.leb_le in Hle. rewrite Hle in T. cbn [implb] in T.
  apply Qle_bool_iff. exact T.
Qed.

(** The lookup as a rational, with the key it used. *)
Lemma getPercentFromRPETable_storedQ (reps RPE : Q) :
  exists k,
    nearest_key rpe_keys (clampRPE RPE) k /\
    getPercentFromRPETable (Fin reps) (Fin RPE)
    = Fin (storedQ (clampReps reps) k).
Proof.
  destruct (getPercentFromRPETable_stored reps RPE) as (k & Hnear & Hst).
  destruct (getPercentFromRPETable_steps reps RPE)
    as (_ & _ & _ & _ & p & _ & _ & _ & _ & _ & _ & _ & _ & Hres).
  exists k. split; [exact Hnear|].
  unfold storedQ. rewrite Hst, Hres. reflexivity.
Qed.

Lemma getPercentFromRPETable_le (reps1 reps2 RPE1 RPE2 : Q) :
  reps1 <= reps2 -> RPE1 <= RPE2 ->
  exists p1 p2,
    getPercentFromRPETable (Fin reps2) (Fin RPE1) = Fin p1 /\
    getPercentFromRPETable (Fin reps1) (Fin RPE2) = Fin p2 /\
    p1 <= p2.
Proof.
  intros Hreps Hrpe.
  destruct (getPercentFromRPETable_storedQ reps2 RPE1) as (k1 & N1 & E1).
  destruct (getPercentFromRPETable_storedQ reps1 RPE2) as (k2 & N2 & E2).
  rewrite E1, E2. do 2 eexists. split; [reflexivity|]. split; [reflexivity|].
  pose proof (nearest_key_mono rpe_keys _ _ k1 k2 (clampRPE_mono _ _ Hrpe) N1 N2)
    as Hk.
  apply Qle_trans with (storedQ (clampReps reps2) k2).
  - apply storedQ_key_mono;
      [apply clampReps_range | apply N1 | apply N2 | exact Hk].
  - apply storedQ_row_mono;
      [apply clampReps_range | apply clampReps_range | apply N2
      | apply clampReps_mono; exact Hreps].
Qed.

(** X1. The looked-up percentage never rises with the rep count and never
    falls with the RPE, on all real inputs. *)
Theorem getPercentFromRPETable_monotone (reps1 reps2 RPE1 RPE2 : Q) :
  reps1 <= reps2 -> RPE1 <= RPE2 ->
  (getPercentFromRPETable (Fin reps2) (Fin RPE1)
   <=? getPercentFromRPETable (Fin reps1) (Fin RPE2))%num = true.
Proof.
  intros Hreps Hrpe.
  destruct (getPercentFromRPETable_le reps1 reps2 RPE1 RPE2 Hreps Hrpe)
    as (p1 & p2 & E1 & E2 & Hle).
  rewrite E1, E2. cbn [le]. apply Qle_bool_iff. exact Hle.
Qed.

Lemma getPercentFromRPETable_monotone_witness :
  (getPercentFromRPETable (Fin 8) (Fin 7.3)
   <=? getPercentFromRPETable (Fin 5) (Fin 9))%num = true.
Proof.
  apply (getPercentFromRPETable_monotone 5 8 7.3 9); discriminate.
Defined.

(* ================================================================= *)
(** ** Further properties of the perceived estimator *)

Lemma NSCA_lookup (c : Q) :
  exists k bp,
    closestRPE_of (Fin c) (sort_desc (Map_keys NSCA_BASE_ROW)) = Some (Fin k) /\
    nearest_key rpe_keys c k /\
    Map_get NSCA_BASE_ROW (Fin k) = Some (Fin bp) /\
    87.8 <= bp <= 100.
Proof.
  change NSCA_BASE_ROW with (rpe_row 100 97.8 95.5 93.9 92.2 90.7 89.2 87.8).
  rewrite rpe_row_keys.
  destruct (closestRPE_of_nearest c 10 (tl rpe_keys) rpe_keys_sorted)
    as (k & Hk & Hnear).
  change (10 :: tl rpe_keys) with rpe_keys in Hk, Hnear.
  exists k. destruct Hnear as [Hin Hbest].
  assert (G : exists bp,
             Map_get (rpe_row 100 97.8 95.5 93.9 92.2 90.7 89.2 87.8) (Fin k)
             = Some (Fin bp) /\ 87.8 <= bp <= 100).
  { revert Hin. unfold rpe_keys. intro H.
    repeat (destruct H as [<-|H];
            [eexists; split; [reflexivity | split; discriminate]|]).
    destruct H. }
  destruct G as (bp & Hbp & Hrange).
  exists bp. split; [exact Hk|]. split; [split; assumption|].
  split; [exact Hbp | exact Hrange].
Qed.

(** The base percentage of the default chart is the table's one-rep entry. *)
Lemma perceived_basePercent_table (i : Q) :
  exists bp,
    perceived_basePercent (Fin i) NSCA_BASE_ROW = Fin bp /\
    getPercentFromRPETable (Fin 1) (Fin (10 - i)) = Fin bp /\
    87.8 <= bp <= 100.
Proof.
  unfold perceived_basePercent, getPercentFromRPETable.
  change (Fin 10 - Fin i)%num with (Fin (10 - i)).
  change (max (Fin 1) (min (Fin 12) (round (Fin 1)))) with (Fin 1).
  change (Map_get RPE_TABLE (Fin 1)) with (Some NSCA_BASE_ROW).
  cbn iota.
  destruct (clampedRPE_Fin (10 - i)) as (c & Hc & _). rewrite Hc.
  destruct (NSCA_lookup c) as (k & bp & Hk & _ & Hbp & Hrange).
  rewrite Hk. cbn [Map_get_opt]. rewrite Hbp. cbn [nullish].
  exists bp. split; [reflexivity|]. split; [reflexivity | exact Hrange].
Qed.

Lemma max0_Fin (x : Q) : max (Fin 0) (Fin x) = Fin (if Qltb 0 x then x else 0).
Proof. apply max_Fin. Qed.

Lemma Qmax0_cases (x : Q) : (if Qltb 0 x then x else 0) == Qmax 0 x.
Proof.
  destruct (Qltb 0 x) eqn:E.
  - apply Qltb_iff in E. rewrite Q.max_r by lra. reflexivity.
  - apply Qltb_false_iff in E. rewrite Q.max_l by lra. reflexivity.
Qed.

(** The estimator on real inputs with the default chart and drop. *)
Lemma e1rmPerceived_shape (w r i : Q) :
  exists bp adj,
    getPercentFromRPETable (Fin 1) (Fin (10 - i)) = Fin bp /\
    87.8 <= bp <= 100 /\
    adj == bp - Qmax 0 (r - 1) * 2 /\
    perceived_adjustedPercent (Fin r) (Fin i) NSCA_BASE_ROW (Fin 2) = Fin adj /\
    e1rmPerceived (Fin w) (Fin r) (Fin i) NSCA_BASE_ROW (Fin 2)
    = (Fin w / Fin adj * Fin 100)%num.
Proof.
  destruct (perceived_basePercent_table i) as (bp & Hbp & Htab & Hrange).
  exists bp. eexists.
  split; [exact Htab|]. split; [exact Hrange|].
  assert (Hadj : perceived_adjustedPercent (Fin r) (Fin i) NSCA_BASE_ROW (Fin 2)
                 = Fin (bp - (if Qltb 0 (r - 1) then r - 1 else 0) * 2)).
  { unfold perceived_adjustedPercent. rewrite Hbp.
    change (Fin r - Fin 1)%num with (Fin (r - 1)). rewrite max0_Fin.
    reflexivity. }
  split; [|split; [exact Hadj|]].
  - rewrite Qmax0_cases. reflexivity.
  - unfold e1rmPerceived. rewrite Hadj. reflexivity.
Qed.

Lemma Qdiv_times_100_pos (w adj : Q) :
  0 < adj -> (Fin w / Fin adj * Fin 100)%num = Fin (w / adj * 100).
Proof.
  intro H. rewrite div_Fin by lra. reflexivity.
Qed.

Lemma Qratio_le (w a b : Q) :
  0 < w -> 0 < b -> b <= a -> w / a * 100 <= w / b * 100.
Proof.
  intros Hw Hb Hab.
  assert (Ha : 0 < a) by lra.
  assert (E : w / b * 100 - w / a * 100 == w * 100 * (a - b) / (a * b))
    by (field; split; lra).
  assert (P : 0 <= w * 100 * (a - b) / (a * b)).
  { apply Qle_shift_div_l.
    - apply Qmult_lt_0_compat; assumption.
    - rewrite Qmult_0_l. apply Qmult_le_0_compat; [|lra].
      apply Qmult_le_0_compat; lra. }
  lra.
Qed.




(** X3. With the default chart and a positive weight the sign of the
    estimate follows the unguarded decay: up to 44 reps the estimate is
    never negative, beyond 51 reps (where the decayed percentage is below
    zero) it is never positive. *)
Theorem e1rmPerceived_range (w reps i : Q) :
  0 < w ->
  (reps <= 44 ->
   (Fin 0 <=? e1rmPerceived (Fin w) (Fin reps) (Fin i) NSCA_BASE_ROW (Fin 2))%num
   = true) /\
  (51 < reps ->
   (e1rmPerceived (Fin w) (Fin reps) (Fin i) NSCA_BASE_ROW (Fin 2) <=? Fin 0)%num
   = true).
Proof.
  intro Hw.
  destruct (e1rmPerceived_shape w reps i)
    as (bp & adj & _ & Hrange & Eadj & _ & He).
  split; intro Hr.
  - assert (M : 0 <= Qmax 0 (reps - 1) <= 43).
    { split; [apply Q.le_max_l | apply Q.max_lub; lra]. }
    assert (Hpos : 0 < adj) by lra.
    rewrite He, (Qdiv_times_100_pos w adj Hpos).
    cbn [le]. apply Qle_bool_iff.
    apply Qmult_le_0_compat; [|discriminate].
    apply Qle_shift_div_l; lra.
  - assert (M : 50 < Qmax 0 (reps - 1)).
    { apply Qlt_le_trans with (reps - 1); [lra | apply Q.le_max_r]. }
    assert (Hneg : adj < 0) by lra.
    rewrite He, div_Fin by lra.
    cbn [mul le]. apply Qle_bool_iff.
    assert (E : w / adj * 100 == - (w * 100 / (- adj))) by (field; lra).
    rewrite E.
    assert (P : 0 < w * 100 / (- adj)).
    { apply Qlt_shift_div_l; lra. }
    lra.
Qed.

Lemma e1rmPerceived_range_witness :
  (Fin 0 <=? e1rmPerceived (Fin 185) (Fin 5) (Fin 2) NSCA_BASE_ROW (Fin 2))%num
  = true /\
  (e1rmPerceived (Fin 100) (Fin 60) (Fin 3) NSCA_BASE_ROW (Fin 2) <=? Fin 0)%num
  = true.
Proof.
  split.
  - apply (proj1 (e1rmPerceived_range 185 5 2 eq_refl)). discriminate.
  - apply (proj2 (e1rmPerceived_range 100 60 3 eq_refl)). reflexivity.
Defined.

(** X4. With the default chart and a positive weight the estimate never
    falls when reps or RIR grow, as long as reps stay at or below 44. *)
Theorem e1rmPerceived_monotone (w r1 r2 i1 i2 : Q) :
  0 < w -> r1 <= r2 -> r2 <= 44 -> i1 <= i2 ->
  (e1rmPerceived (Fin w) (Fin r1) (Fin i1) NSCA_BASE_ROW (Fin 2)
   <=? e1rmPerceived (Fin w) (Fin r2) (Fin i2) NSCA_BASE_ROW (Fin 2))%num = true.
Proof.
  intros Hw Hr H44 Hi.
  destruct (e1rmPerceived_shape w r1 i1)
    as (bp1 & adj1 & T1 & R1 & A1 & _ & E1).
  destruct (e1rmPerceived_shape w r2 i2)
    as (bp2 & adj2 & T2 & R2 & A2 & _ & E2).
  destruct (getPercentFromRPETable_le 1 1 (10 - i2) (10 - i1))
    as (p2 & p1 & P2 & P1 & Hle); [lra | lra |].
  rewrite T2 in P2. rewrite T1 in P1.
  injection P2 as <-. injection P1 as <-.
  assert (M1 : 0 <= Qmax 0 (r1 - 1)) by apply Q.le_max_l.
  assert (M2 : Qmax 0 (r2 - 1) <= 43) by (apply Q.max_lub; lra).
  assert (M12 : Qmax 0 (r1 - 1) <= Qmax 0 (r2 - 1))
    by (apply Q.max_le_compat_l; lra).
  assert (Hpos2 : 0 < adj2) by lra.
  assert (Hpos1 : 0 < adj1) by lra.
  rewrite E1, E2, (Qdiv_times_100_pos w adj1 Hpos1),
    (Qdiv_times_100_pos w adj2 Hpos2).
  cbn [le]. apply Qle_bool_iff. apply Qratio_le; lra.
Qed.

Lemma e1rmPerceived_monotone_witness :
  (e1rmPerceived (Fin 185) (Fin 5) (Fin 1) NSCA_BASE_ROW (Fin 2)
   <=? e1rmPerceived (Fin 185) (Fin 8) (Fin 2) NSCA_BASE_ROW (Fin 2))%num = true.
Proof.
  apply (e1rmPerceived_monotone 185 5 8 1 2); try reflexivity; discriminate.
Defined.

(* ================================================================= *)
(** ** Further properties of the load computation *)

Lemma getPercentFromRPETable_range (reps RPE : Q) :
  exists p,
    getPercentFromRPETable (Fin reps) (Fin RPE) = Fin p /\ 58.6 <= p <= 100.
Proof.
  destruct (getPercentFromRPETable_steps reps RPE)
    as (row & x & c & k & p & _ & _ & _ & _ & Hrow & _ & _ & Hp & Hres).
  exists p. split; [exact Hres|].
  assert (Hin : In (Fin p) table_values)
    by (apply (table_values_In (Fin x) row (Fin k)); assumption).
  pose proof table_values_bounds as Hb.
  rewrite forallb_forall in Hb. specialize (Hb (Fin p) Hin).
  apply andb_prop in Hb. destruct Hb as [Hw _].
  unfold within in Hw. apply andb_prop in Hw. destruct Hw as [Hlo Hhi].
  apply Qle_bool_iff in Hlo, Hhi. split; assumption.
Qed.

Lemma loadFromBaseline_value (b reps rir inc pct : Q) :
  ~ inc == 0 ->
  getPercentFromRPETable (Fin reps) (Fin (10 - rir)) = Fin pct ->
  loadFromBaselineUsingPercent (Fin b) (Fin reps) (Fin rir) (Fin inc)
  = Fin (inject_Z (Qround_half_up (b * pct / 100 / inc)) * inc).
Proof.
  intros Hinc Hp. unfold loadFromBaselineUsingPercent.
  change (Fin 10 - Fin rir)%num with (Fin (10 - rir)). rewrite Hp.
  cbn [mul]. rewrite (div_Fin (b * pct) 100) by discriminate.
  rewrite div_Fin by exact Hinc. reflexivity.
Qed.


Lemma Qround_half_up_mono (x y : Q) :
  x <= y -> (Qround_half_up x <= Qround_half_up y)%Z.
Proof. intro H. unfold Qround_half_up. apply Qfloor_resp_le. lra. Qed.


Lemma Qdiv_le_compat_r (x y z : Q) : 0 < z -> x <= y -> x / z <= y / z.
Proof.
  intros Hz H. unfold Qdiv. apply Qmult_le_compat_r; [exact H|].
  apply Qlt_le_weak, Qinv_lt_0_compat. exact Hz.
Qed.



(** X6. With a positive increment the load never falls when the baseline
    grows. *)
Theorem loadFromBaselineUsingPercent_monotone (b1 b2 reps rir inc : Q) :
  0 < inc -> b1 <= b2 ->
  (loadFromBaselineUsingPercent (Fin b1) (Fin reps) (Fin rir) (Fin inc)
   <=? loadFromBaselineUsingPercent (Fin b2) (Fin reps) (Fin rir) (Fin inc))%num
  = true.
Proof.
  intros Hinc Hb.
  destruct (getPercentFromRPETable_range reps (10 - rir)) as (pct & Hp & Hlo & Hhi).
  rewrite !(loadFromBaseline_value _ reps rir inc pct) by (lra || exact Hp).
  cbn [le]. apply Qle_bool_iff.
  apply Qmult_le_compat_r; [|lra].
  rewrite <- Zle_Qle. apply Qround_half_up_mono.
  apply Qdiv_le_compat_r; [exact Hinc|].
  apply Qdiv_le_compat_r; [reflexivity|].
  apply Qmult_le_compat_r; lra.
Qed.

Lemma loadFromBaselineUsingPercent_monotone_witness :
  (loadFromBaselineUsingPercent (Fin 200) (Fin 8) (Fin 2) (Fin 2.5)
   <=? loadFromBaselineUsingPercent (Fin 210) (Fin 8) (Fin 2) (Fin 2.5))%num
  = true.
Proof.
  apply (loadFromBaselineUsingPercent_monotone 200 210 8 2 2.5);
    [reflexivity | discriminate].
Defined.

(** X7. A zero increment is not guarded: every real baseline, target reps
    and RIR then give NaN. *)
Theorem loadFromBaselineUsingPercent_zero_increment (b reps rir : Q) :
  loadFromBaselineUsingPercent (Fin b) (Fin reps) (Fin rir) (Fin 0) = NaN.
Proof.
  destruct (getPercentFromRPETable_range reps (10 - rir)) as (pct & Hp & _).
  unfold loadFromBaselineUsingPercent.
  change (Fin 10 - Fin rir)%num with (Fin (10 - rir)). rewrite Hp.
  cbn [mul]. rewrite (div_Fin (b * pct) 100) by discriminate.
  unfold div. change (Qeq_bool 0 0) with true. cbn iota.
  destruct (Qsign (b * pct / 100)); reflexivity.
Qed.

(* ================================================================= *)
(** ** Further properties of the zones *)

Lemma zone_presets_Fin (zone : TrainingGoal) :
  low (ZONE_PRESETS zone) = Fin (zone_low zone) /\
  high (ZONE_PRESETS zone) = Fin (zone_high zone) /\
  targetRIR (ZONE_PRESETS zone) = Fin (zone_targetRIR zone) /\
  defaultReps (ZONE_PRESETS zone) = Fin (Qvalue (defaultReps (ZONE_PRESETS zone))) /\
  1 <= zone_low zone /\
  zone_low zone <= Qvalue (defaultReps (ZONE_PRESETS zone)) /\
  Qvalue (defaultReps (ZONE_PRESETS zone)) < zone_high zone /\
  zone_targetRIR zone == 2.
Proof.
  destruct zone; repeat split; try reflexivity; discriminate.
Qed.

Lemma clamp_Fin (lo hi q : Q) :
  lo <= hi ->
  exists c,
    max (Fin lo) (min (Fin hi) (Fin q)) = Fin c /\
    lo <= c <= hi /\ (lo <= q <= hi -> c == q).
Proof.
  intro H. rewrite min_Fin, max_Fin. eexists. split; [reflexivity|].
  destruct (Qltb q hi) eqn:E1.
  - apply Qltb_iff in E1. destruct (Qltb lo q) eqn:E2.
    + apply Qltb_iff in E2. split; [lra | intros _; reflexivity].
    + apply Qltb_false_iff in E2. split; [lra | intros [? ?]; lra].
  - apply Qltb_false_iff in E1. destruct (Qltb lo hi) eqn:E2.
    + split; [lra | intros [? ?]; lra].
    + apply Qltb_false_iff in E2. split; [lra | intros [? ?]; lra].
Qed.

Lemma clampToZoneReps_Fin (zone : TrainingGoal) (targetReps : option num) :
  exists c,
    clampToZoneReps zone targetReps = Fin c /\
    zone_low zone <= c <= zone_high zone.
Proof.
  destruct (zone_presets_Fin zone)
    as (El & Eh & _ & Ed & Hl1 & Hld & Hdh & _).
  assert (Hdef : exists c, defaultReps (ZONE_PRESETS zone) = Fin c /\
                           zone_low zone <= c <= zone_high zone).
  { eexists. split; [exact Ed | lra]. }
  unfold clampToZoneReps.
  destruct targetReps as [t|]; [|exact Hdef].
  destruct (truthy t) eqn:Et; cbn [negb]; [|exact Hdef].
  rewrite El, Eh.
  destruct t as [q| | |]; try discriminate.
  - destruct (clamp_Fin (zone_low zone) (zone_high zone) q) as (c & Hc & Hr & _);
      [lra|].
    exists c. split; assumption.
  - exists (zone_high zone). split; [|lra].
    cbn [min lt]. rewrite max_Fin.
    assert (E : Qltb (zone_low zone) (zone_high zone) = true)
      by (apply Qltb_iff; lra).
    rewrite E. reflexivity.
  - exists (zone_low zone). split; [reflexivity | lra].
Qed.

(** X8. Whatever target is supplied (absent, 0, NaN, infinite or any real),
    the clamped rep count lies in the zone's range [low, high]; a non-zero
    target already in the range is returned unchanged; an absent, zero or
    NaN target gives the zone's default; and clamping twice equals clamping
    once. *)
Theorem clampToZoneReps_in_zone (zone : TrainingGoal) (targetReps : option num) :
  (low (ZONE_PRESETS zone) <=? clampToZoneReps zone targetReps)%num = true /\
  (clampToZoneReps zone targetReps <=? high (ZONE_PRESETS zone))%num = true /\
  (forall q : Q,
      targetReps = Some (Fin q) -> ~ q == 0 ->
      zone_low zone <= q <= zone_high zone ->
      clampToZoneReps zone targetReps =n= Fin q) /\
  (targetReps = None \/ targetReps = Some NaN \/
   (exists q, targetReps = Some (Fin q) /\ q == 0) ->
   clampToZoneReps zone targetReps = defaultReps (ZONE_PRESETS zone)) /\
  clampToZoneReps zone (Some (clampToZoneReps zone targetReps))
  =n= clampToZoneReps zone targetReps.
Proof.
  destruct (zone_presets_Fin zone)
    as (El & Eh & _ & Ed & Hl1 & Hld & Hdh & _).
  destruct (clampToZoneReps_Fin zone targetReps) as (c & Hc & Hlo & Hhi).
  split; [|split; [|split; [|split]]].
  - rewrite Hc, El. cbn [le]. apply Qle_bool_iff. exact Hlo.
  - rewrite Hc, Eh. cbn [le]. apply Qle_bool_iff. exact Hhi.
  - intros q -> Hq Hrange. unfold clampToZoneReps.
    rewrite (truthy_Fin q Hq). cbn [negb]. rewrite El, Eh.
    destruct (clamp_Fin (zone_low zone) (zone_high zone) q) as (c' & Hc' & _ & Hid);
      [lra|].
    rewrite Hc'. cbn [num_eq]. apply Hid. exact Hrange.
  - intros [->|[->|(q & -> & Hq)]]; try reflexivity.
    unfold clampToZoneReps. cbn [truthy].
    apply Qeq_bool_iff in Hq. rewrite Hq. reflexivity.
  - rewrite Hc. unfold clampToZoneReps.
    rewrite (truthy_Fin c) by lra. cbn [negb]. rewrite El, Eh.
    destruct (clamp_Fin (zone_low zone) (zone_high zone) c) as (c' & Hc' & _ & Hid);
      [lra|].
    rewrite Hc'. cbn [num_eq]. apply Hid. split; assumption.
Qed.

Lemma clampToZoneReps_in_zone_witness :
  clampToZoneReps HYPERTROPHY (Some (Fin 10)) =n= Fin 10 /\
  clampToZoneReps HYPERTROPHY (Some (Fin 0)) = defaultReps (ZONE_PRESETS HYPERTROPHY).
Proof.
  split.
  - destruct (clampToZoneReps_in_zone HYPERTROPHY (Some (Fin 10)))
      as (_ & _ & Hid & _).
    apply (Hid 10); [reflexivity | discriminate | split; discriminate].
  - destruct (clampToZoneReps_in_zone HYPERTROPHY (Some (Fin 0)))
      as (_ & _ & _ & Hdef & _).
    apply Hdef. right. right. exists 0. split; reflexivity.
Defined.

(** X9. A top set with reps in [low, high) and RIR at most targetRIR + 1 is
    neither in the top of the range nor below it, so the planned weight is
    left as computed; in particular a lifter who performs exactly the
    prescription (the zone's target reps at the target RIR) gets no
    overload adjustment, for every goal. *)
Theorem in_range_no_adjustment
  (goal : Goal) (w : num) (reps rir : Q) (baseline : num) :
  zone_low goal <= reps -> reps < zone_high goal ->
  rir <= zone_targetRIR goal + 1 ->
  (isInTopOfRange (Fin reps) (Fin rir) goal = false /\
   isBelowRange (Fin reps) (Fin rir) goal = false /\
   plannedWeight_adjusted goal
     {| ts_weight := w; ts_reps := Fin reps; ts_rir := Fin rir |} baseline
   = plannedWeight_base goal baseline) /\
  plannedWeight_adjusted goal (prescribed_top goal w) baseline
  = plannedWeight_base goal baseline.
Proof.
  intros Hlo Hhi Hrir.
  destruct (zone_presets_Fin goal) as (El & Eh & Et & _).
  assert (Htop : isInTopOfRange (Fin reps) (Fin rir) goal = false).
  { unfold isInTopOfRange, ge. rewrite Eh. cbn [le].
    assert (E : Qle_bool (zone_high goal) reps = false).
    { destruct (Qle_bool (zone_high goal) reps) eqn:E; [|reflexivity].
      apply Qle_bool_iff in E. exfalso. lra. }
    rewrite E. reflexivity. }
  assert (Hbelow : isBelowRange (Fin reps) (Fin rir) goal = false).
  { unfold isBelowRange, gt. rewrite El, Et. cbn [lt add].
    apply orb_false_intro; apply Qltb_false_iff; lra. }
  split.
  - split; [exact Htop|]. split; [exact Hbelow|].
    unfold plannedWeight_adjusted, overloadAdjust. cbn [ts_reps ts_rir].
    rewrite Htop, Hbelow. reflexivity.
  - destruct goal; reflexivity.
Qed.

Lemma in_range_no_adjustment_witness :
  isInTopOfRange (Fin 8) (Fin 3) HYPERTROPHY = false /\
  isBelowRange (Fin 8) (Fin 3) HYPERTROPHY = false /\
  plannedWeight_adjusted HYPERTROPHY
    {| ts_weight := Fin 175; ts_reps := Fin 8; ts_rir := Fin 3 |} (Fin 200)
  = plannedWeight_base HYPERTROPHY (Fin 200).
Proof.
  apply (proj1 (in_range_no_adjustment HYPERTROPHY (Fin 175) 8 3 (Fin 200)
                  ltac:(discriminate) ltac:(reflexivity) ltac:(discriminate))).
Defined.

(* ================================================================= *)
(** ** Further properties of the unit handling *)













(* ================================================================= *)
(** ** Further properties of the handler *)

Lemma recommend_sets (unit : WeightUnit) (goal : Goal) (a : Analysed)
  (t : TopSetRpe) (b : num) :
  a_topSet a = Some t -> a_currentBaseline a = Some b -> truthy b = true ->
  Out.sets (Out.recommended (recommend unit goal a))
  = List.map
      (fun idx =>
         {| Out.setIndex := (idx + 1)%nat;
            Out.weight :=
              toFixed 2 (finalWeight unit (plannedWeight_adjusted goal (top t) b));
            Out.reps :=
              clampToZoneReps goal (Some (defaultReps (ZONE_PRESETS goal)));
            Out.targetRPE := (Fin 10 - targetRIR (ZONE_PRESETS goal))%num;
            Out.percentOf1RM :=
              toFixed 1
                (toFixed 2 (finalWeight unit (plannedWeight_adjusted goal (top t) b))
                 / a_perceived1RM a * Fin 100)%num;
            Out.notes :=
              {| Out.zone := goal; Out.perceived := toFixed 1 b;
                 Out.unit := unit |} |})
      (seq 0 (Zones.sets (ZONE_PRESETS goal))).
Proof.
  intros H1 H2 H3. unfold recommend. rewrite H1, H2, H3.
  cbn [negb Out.recommended Out.sets]. unfold array_from_map.
  rewrite List.map_map. reflexivity.
Qed.

Lemma recommend_sets_empty (unit : WeightUnit) (goal : Goal) (a : Analysed) :
  (a_topSet a = None \/ a_currentBaseline a = None \/
   exists b, a_currentBaseline a = Some b /\ truthy b = false) ->
  Out.sets (Out.recommended (recommend unit goal a)) = [].
Proof.
  unfold recommend.
  intros [H|[H|(b & H & Hb)]].
  - rewrite H. reflexivity.
  - rewrite H. destruct (a_topSet a); reflexivity.
  - rewrite H, Hb. destruct (a_topSet a); reflexivity.
Qed.

Lemma seq_succ_map (n : nat) :
  List.map (fun idx => (idx + 1)%nat) (seq 0 n) = seq 1 n.
Proof.
  rewrite <- seq_shift. apply map_ext. intro a. apply Nat.add_1_r.
Qed.

(** X14. A recommendation carries either no set or exactly [zone.sets]
    sets, numbered 1, 2, ... in order, all with the same weight, the
    zone's default reps and target RPE 10 - targetRIR; it carries no set
    exactly when there is no top set or the baseline is absent, 0 or NaN. *)
Theorem recommend_sets_shape (unit : WeightUnit) (goal : Goal) (a : Analysed) :
  let zone := ZONE_PRESETS goal in
  let sets := Out.sets (Out.recommended (recommend unit goal a)) in
  (sets = [] <->
   a_topSet a = None \/ a_currentBaseline a = None \/
   exists b, a_currentBaseline a = Some b /\ truthy b = false) /\
  (sets = [] \/
   List.map Out.setIndex sets = seq 1 (Zones.sets zone) /\
   exists w,
     Forall (fun s => Out.weight s = w /\
                      Out.reps s = defaultReps zone /\
                      Out.targetRPE s = (Fin 10 - targetRIR zone)%num) sets).
Proof.
  cbn zeta.
  assert (Ct : a_topSet a = None \/ exists t, a_topSet a = Some t)
    by (destruct (a_topSet a) as [t|]; [right; exists t|left]; reflexivity).
  assert (Cb : a_currentBaseline a = None \/
               exists b, a_currentBaseline a = Some b)
    by (destruct (a_currentBaseline a) as [b|]; [right; exists b|left];
        reflexivity).
  assert (Hempty :
            (a_topSet a = None \/ a_currentBaseline a = None \/
             exists b, a_currentBaseline a = Some b /\ truthy b = false) ->
            (Out.sets (Out.recommended (recommend unit goal a)) = [] <->
             a_topSet a = None \/ a_currentBaseline a = None \/
             exists b, a_currentBaseline a = Some b /\ truthy b = false) /\
            (Out.sets (Out.recommended (recommend unit goal a)) = [] \/
             List.map Out.setIndex
               (Out.sets (Out.recommended (recommend unit goal a)))
             = seq 1 (Zones.sets (ZONE_PRESETS goal)) /\
             exists w,
               Forall (fun s => Out.weight s = w /\
                                Out.reps s = defaultReps (ZONE_PRESETS goal) /\
                                Out.targetRPE s
                                = (Fin 10 - targetRIR (ZONE_PRESETS goal))%num)
                 (Out.sets (Out.recommended (recommend unit goal a))))).
  { intro H. pose proof (recommend_sets_empty unit goal a H) as E.
    split; [split; [intros _; exact H | intros _; exact E] | left; exact E]. }
  destruct Ct as [Ht|(t & Ht)]; [apply Hempty; left; exact Ht|].
  destruct Cb as [Hb|(b & Hb)]; [apply Hempty; right; left; exact Hb|].
  destruct (truthy b) eqn:Hy;
    [|apply Hempty; right; right; exists b; split; [exact Hb | exact Hy]].
  clear Hempty.
  rewrite (recommend_sets unit goal a t b Ht Hb Hy).
  split.
  - split.
    + intro E. exfalso. destruct goal; discriminate E.
    + intros [H|[H|(b' & H & Hb')]].
      * rewrite Ht in H. discriminate.
      * rewrite Hb in H. discriminate.
      * rewrite Hb in H. injection H as <-. rewrite Hy in Hb'. discriminate.
  - right. rewrite List.map_map. cbn [Out.setIndex].
    split; [apply seq_succ_map|].
    eexists. apply Forall_forall. intros s Hs.
    apply in_map_iff in Hs. destruct Hs as (idx & <- & _).
    cbn [Out.weight Out.reps Out.targetRPE].
    split; [reflexivity|]. split; [apply zone_basePercent | reflexivity].
Qed.

Lemma recommend_sets_shape_witness :
  List.map Out.setIndex
    (Out.sets (Out.recommended (recommend kg HYPERTROPHY (analyse bench_exercise))))
  = [1; 2; 3]%nat.
Proof.
  destruct (recommend_sets_shape kg HYPERTROPHY (analyse bench_exercise))
    as (_ & [E | (H & _)]).
  - discriminate E.
  - exact H.
Defined.




Lemma finite_set_inv (s : In.PreviousSet) :
  finite_set s = true ->
  exists w r i,
    In.weight s = Fin w /\ In.reps s = Fin r /\ nullish (In.rir s) (Fin 2) = Fin i.
Proof.
  unfold finite_set.
  destruct (In.weight s) as [w| | |]; try discriminate.
  destruct (In.reps s) as [r| | |]; try discriminate.
  destruct (In.rir s) as [[i| | |]|]; try discriminate; intros _.
  - exists w, r, i. repeat split.
  - exists w, r, 2. repeat split.
Qed.



(* ================================================================= *)
(** ** The perceived estimator on a caller-supplied base row *)












(* ================================================================= *)
(** ** Properties of the earlier handler *)

Lemma Legacy_round_between (r : Q) :
  5 <= r -> r <= 10 ->
  (5 <= Qround_half_up r <= 10)%Z.
Proof.
  intros H5 H10. split.
  - change 5%Z with (Qround_half_up 5). apply Qround_half_up_mono. exact H5.
  - change 10%Z with (Qround_half_up 10). apply Qround_half_up_mono. exact H10.
Qed.

Lemma Legacy_rpeFromRIR_range (rir : num) :
  exists z, (5 <= z <= 10)%Z /\ Legacy.rpeFromRIR rir = Fin (inject_Z z).
Proof.
  destruct rir as [x| | |];
    try (exists 8%Z; split; [lia | reflexivity]).
  unfold Legacy.rpeFromRIR. cbn [Legacy.isFinite].
  change (Fin 10 - Fin x)%num with (Fin (10 - x)). cbn [ge le].
  destruct (Qle_bool 10 (10 - x)) eqn:E1.
  - exists 10%Z. split; [lia | reflexivity].
  - destruct (Qle_bool (10 - x) 5) eqn:E2.
    + exists 5%Z. split; [lia | reflexivity].
    + exists (Qround_half_up (10 - x)). split; [|reflexivity].
      apply Legacy_round_between.
      * destruct (Qlt_le_dec (10 - x) 5) as [H|H]; [|exact H].
        exfalso. assert (L : 10 - x <= 5) by lra.
        apply Qle_bool_iff in L. congruence.
      * destruct (Qlt_le_dec 10 (10 - x)) as [H|H]; [|exact H].
        exfalso. assert (L : 10 <= 10 - x) by lra.
        apply Qle_bool_iff in L. congruence.
Qed.

Lemma Legacy_percent_of_key (z : Z) :
  (5 <= z <= 10)%Z ->
  exists p,
    Map_get Legacy.RPE_PERCENT (Fin (inject_Z z)) = Some (Fin p) /\
    0.79 <= p <= 1.
Proof.
  intro H.
  assert (C : (z = 5 \/ z = 6 \/ z = 7 \/ z = 8 \/ z = 9 \/ z = 10)%Z) by lia.
  repeat (destruct C as [->|C];
          [eexists; split; [reflexivity | split; discriminate]|]).
  subst z. eexists. split; [reflexivity | split; discriminate].
Qed.

Lemma Legacy_percent_always_charted_aux (rir : num) :
  exists p,
    Legacy.percentFromRPE (Legacy.rpeFromRIR rir) = Fin p /\ 0.79 <= p <= 1.
Proof.
  destruct (Legacy_rpeFromRIR_range rir) as (z & Hz & Ez).
  destruct (Legacy_percent_of_key z Hz) as (p & Hp & Hrange).
  exists p. split; [|exact Hrange].
  unfold Legacy.percentFromRPE. rewrite Ez, Hp. reflexivity.
Qed.

(** X20. For every RIR, NaN and the infinities included (they count as 2),
    [rpeFromRIR] returns an integer from 5 to 10, so [percentFromRPE] of it
    is an entry of the chart, between 0.79 and 1: the default 0.92 for an
    unknown RPE is never used on this path. *)
Theorem Legacy_percent_always_charted (rir : num) :
  exists (z : Z) (p : Q),
    (5 <= z <= 10)%Z /\
    Legacy.rpeFromRIR rir = Fin (inject_Z z) /\
    Map_get Legacy.RPE_PERCENT (Legacy.rpeFromRIR rir) = Some (Fin p) /\
    Legacy.percentFromRPE (Legacy.rpeFromRIR rir) = Fin p /\
    0.79 <= p <= 1.
Proof.
  destruct (Legacy_rpeFromRIR_range rir) as (z & Hz & Ez).
  destruct (Legacy_percent_of_key z Hz) as (p & Hp & Hrange).
  exists z, p. rewrite Ez. split; [exact Hz|]. split; [reflexivity|].
  split; [exact Hp|]. split; [|exact Hrange].
  unfold Legacy.percentFromRPE. rewrite Hp. reflexivity.
Qed.

Lemma Legacy_metrics_Fin (s : In.PreviousSet) :
  finite_set s = true ->
  exists w r i p,
    In.weight s = Fin w /\ In.reps s = Fin r /\
    0.79 <= p <= 1 /\
    Legacy.m_perceived1RM (Legacy.metrics s) = Fin (w / p) /\
    Legacy.m_epley (Legacy.metrics s) = Fin (epley w r i).
Proof.
  intro H. destruct (finite_set_inv s H) as (w & r & i & Ew & Er & Ei).
  destruct (Legacy_percent_always_charted_aux (Fin i)) as (p & Hp & Hrange).
  exists w, r, i, p.
  split; [exact Ew|]. split; [exact Er|]. split; [exact Hrange|].
  unfold Legacy.metrics. cbn [Legacy.m_perceived1RM Legacy.m_epley].
  rewrite Ew, Er, Ei, Hp. split.
  - apply div_Fin. lra.
  - reflexivity.
Qed.

Lemma fold_max_Fin (l : list Q) : forall m0 : Q,
  exists m,
    fold_left max (List.map Fin l) (Fin m0) = Fin m /\
    m0 <= m /\
    (forall x, In x l -> x <= m) /\
    (m = m0 \/ In m l).
Proof.
  induction l as [|a l IH]; intro m0; cbn [List.map fold_left].
  - exists m0. split; [reflexivity|]. split; [apply Qle_refl|].
    split; [intros x []|left; reflexivity].
  - rewrite max_Fin. destruct (Qltb m0 a) eqn:E.
    + apply Qltb_iff in E.
      destruct (IH a) as (m & Hm & Hge & Hall & Hin).
      exists m. split; [exact Hm|]. split; [lra|]. split.
      * intros x [<-|Hx]; [exact Hge | apply Hall; exact Hx].
      * right. destruct Hin as [->|Hin]; [left; reflexivity | right; exact Hin].
    + apply Qltb_false_iff in E.
      destruct (IH m0) as (m & Hm & Hge & Hall & Hin).
      exists m. split; [exact Hm|]. split; [exact Hge|]. split.
      * intros x [<-|Hx]; [lra | apply Hall; exact Hx].
      * destruct Hin as [->|Hin]; [left; reflexivity | right; right; exact Hin].
Qed.

Lemma Math_max_Fin (a : Q) (l : list Q) :
  exists m,
    Legacy.Math_max (List.map Fin (a :: l)) = Fin m /\
    (forall x, In x (a :: l) -> x <= m) /\
    In m (a :: l).
Proof.
  unfold Legacy.Math_max. cbn [List.map fold_left].
  change (max NInf (Fin a)) with (Fin a).
  destruct (fold_max_Fin l a) as (m & Hm & Hge & Hall & Hin).
  exists m. split; [exact Hm|]. split.
  - intros x [<-|Hx]; [exact Hge | apply Hall; exact Hx].
  - destruct Hin as [->|Hin]; [left; reflexivity | right; exact Hin].
Qed.

Lemma map_Fin_values {A : Type} (f : A -> num) (l : list A) :
  (forall s, In s l -> f s = Fin (Qvalue (f s))) ->
  List.map f l = List.map Fin (List.map (fun s => Qvalue (f s)) l).
Proof.
  intro H. rewrite List.map_map. apply map_ext_in. exact H.
Qed.

(** The representative 1RM in real arithmetic. *)
Lemma Legacy_representative1RM_real
  (unit : WeightUnit) (goal : Goal) (ex : In.PreviousExerciseInstance) :
  forallb finite_set (In.sets ex) = true ->
  (In.sets ex = [] ->
   Legacy.representative1RM (In.sets ex) = NInf /\
   Legacy.newSets_weights unit goal ex = repeat NInf (Legacy.GOAL_SETS goal)) /\
  (In.sets ex <> [] ->
   exists m,
     Legacy.representative1RM (In.sets ex) = Fin m /\
     (forall s, In s (In.sets ex) ->
        (Legacy.m_perceived1RM (Legacy.metrics s) <=? Fin m)%num = true /\
        (Legacy.m_epley (Legacy.metrics s) <=? Fin m)%num = true) /\
     (exists s, In s (In.sets ex) /\
        (Legacy.m_perceived1RM (Legacy.metrics s) = Fin m \/
         Legacy.m_epley (Legacy.metrics s) = Fin m))).
Proof.
  intro Hfin. split.
  - intro Hnil. unfold Legacy.newSets_weights. rewrite Hnil.
    split; [reflexivity|].
    destruct unit, goal; reflexivity.
  - intro Hne.
    assert (HP : forall s, In s (In.sets ex) ->
                 Legacy.m_perceived1RM (Legacy.metrics s)
                 = Fin (Qvalue (Legacy.m_perceived1RM (Legacy.metrics s)))).
    { intros s Hs. rewrite forallb_forall in Hfin.
      destruct (Legacy_metrics_Fin s (Hfin s Hs))
        as (w & r & i & p & _ & _ & _ & Hp & _).
      rewrite Hp. reflexivity. }
    assert (HE : forall s, In s (In.sets ex) ->
                 Legacy.m_epley (Legacy.metrics s)
                 = Fin (Qvalue (Legacy.m_epley (Legacy.metrics s)))).
    { intros s Hs. rewrite forallb_forall in Hfin.
      destruct (Legacy_metrics_Fin s (Hfin s Hs))
        as (w & r & i & p & _ & _ & _ & _ & He).
      rewrite He. reflexivity. }
    unfold Legacy.representative1RM. rewrite !List.map_map.
    rewrite (map_Fin_values _ _ HP), (map_Fin_values _ _ HE).
    destruct (In.sets ex) as [|s0 l] eqn:El; [contradiction|].
    cbn [List.map].
    destruct (Math_max_Fin
                (Qvalue (Legacy.m_perceived1RM (Legacy.metrics s0)))
                (List.map (fun s => Qvalue (Legacy.m_perceived1RM (Legacy.metrics s))) l))
      as (mp & Emp & Hmp & Inmp).
    destruct (Math_max_Fin
                (Qvalue (Legacy.m_epley (Legacy.metrics s0)))
                (List.map (fun s => Qvalue (Legacy.m_epley (Legacy.metrics s))) l))
      as (me & Eme & Hme & Inme).
    cbn [List.map] in Emp, Eme. rewrite Emp, Eme, max_Fin.
    change (Qvalue (Legacy.m_perceived1RM (Legacy.metrics s0))
            :: List.map (fun s => Qvalue (Legacy.m_perceived1RM (Legacy.metrics s))) l)
      with (List.map (fun s => Qvalue (Legacy.m_perceived1RM (Legacy.metrics s)))
              (s0 :: l)) in Hmp, Inmp.
    change (Qvalue (Legacy.m_epley (Legacy.metrics s0))
            :: List.map (fun s => Qvalue (Legacy.m_epley (Legacy.metrics s))) l)
      with (List.map (fun s => Qvalue (Legacy.m_epley (Legacy.metrics s)))
              (s0 :: l)) in Hme, Inme.
    eexists. split; [reflexivity|]. split.
    + intros s Hs.
      assert (Lp : Qvalue (Legacy.m_perceived1RM (Legacy.metrics s)) <= mp)
        by (apply Hmp; apply in_map_iff; exists s; split; [reflexivity | exact Hs]).
      assert (Le : Qvalue (Legacy.m_epley (Legacy.metrics s)) <= me)
        by (apply Hme; apply in_map_iff; exists s; split; [reflexivity | exact Hs]).
      rewrite (HP s Hs), (HE s Hs). cbn [le].
      destruct (Qltb mp me) eqn:E.
      * apply Qltb_iff in E. split; apply Qle_bool_iff; lra.
      * apply Qltb_false_iff in E. split; apply Qle_bool_iff; lra.
    + destruct (Qltb mp me).
      * apply in_map_iff in Inme. destruct Inme as (s & Es & Hs).
        exists s. split; [exact Hs|]. right. rewrite (HE s Hs), Es. reflexivity.
      * apply in_map_iff in Inmp. destruct Inmp as (s & Es & Hs).
        exists s. split; [exact Hs|]. left. rewrite (HP s Hs), Es. reflexivity.
Qed.

Lemma LoggedSet_ok_finite (s : In.PreviousSet) :
  LoggedSet_ok s = true -> finite_set s = true.
Proof.
  intro H. destruct (LoggedSet_ok_inv s H) as (w & r & i & Ew & Er & Ei & _).
  unfold finite_set. rewrite Ew, Er.
  destruct (In.rir s) as [[x| | |]|]; cbn [nullish] in Ei; try discriminate;
    reflexivity.
Qed.

(** X21. In the earlier handler an exercise without sets has the
    representative 1RM -Infinity and is prescribed the weight -Infinity in
    every set, for every goal and unit.  With at least one set, all of the
    data model (positive weight and reps, RIR >= 0 or absent), the
    representative 1RM is at least the perceived and the Epley estimate of
    every set, and it is one of those estimates. *)
Theorem Legacy_representative1RM_bounds
  (unit : WeightUnit) (goal : Goal) (ex : In.PreviousExerciseInstance) :
  (In.sets ex = [] ->
   Legacy.representative1RM (In.sets ex) = NInf /\
   Legacy.newSets_weights unit goal ex = repeat NInf (Legacy.GOAL_SETS goal)) /\
  (In.sets ex <> [] -> forallb LoggedSet_ok (In.sets ex) = true ->
   (forall s, In s (In.sets ex) ->
      (Legacy.m_perceived1RM (Legacy.metrics s)
       <=? Legacy.representative1RM (In.sets ex))%num = true /\
      (Legacy.m_epley (Legacy.metrics s)
       <=? Legacy.representative1RM (In.sets ex))%num = true) /\
   (exists s, In s (In.sets ex) /\
      (Legacy.m_perceived1RM (Legacy.metrics s)
       = Legacy.representative1RM (In.sets ex) \/
       Legacy.m_epley (Legacy.metrics s)
       = Legacy.representative1RM (In.sets ex)))).
Proof.
  split.
  - intro Hnil. unfold Legacy.newSets_weights. rewrite Hnil.
    split; [reflexivity|].
    destruct unit, goal; reflexivity.
  - intros Hne Hok.
    assert (Hfin : forallb finite_set (In.sets ex) = true).
    { apply forallb_forall. intros s Hs. rewrite forallb_forall in Hok.
      apply LoggedSet_ok_finite, Hok, Hs. }
    destruct (proj2 (Legacy_representative1RM_real unit goal ex Hfin) Hne)
      as (m & Em & Hall & Hex).
    rewrite Em. split; [exact Hall | exact Hex].
Qed.

Lemma Legacy_representative1RM_bounds_witness :
  exists s, In s (In.sets bench_exercise) /\
    (Legacy.m_perceived1RM (Legacy.metrics s)
     = Legacy.representative1RM (In.sets bench_exercise) \/
     Legacy.m_epley (Legacy.metrics s)
     = Legacy.representative1RM (In.sets bench_exercise)).
Proof.
  apply (proj2 (Legacy_representative1RM_bounds lbs HYPERTROPHY bench_exercise)).
  - discriminate.
  - reflexivity.
Defined.

(* ================================================================= *)
(** ** The target weight of the earlier handler *)




(* ================================================================= *)
(** ** The calorie handler end to end *)

Lemma unbounded_add_l (x y : num) : unbounded x -> unbounded (x + y)%num.
Proof. intros [-> | ->]; destruct y; cbn; unfold unbounded; tauto. Qed.

Lemma unbounded_sub_l (x y : num) : unbounded x -> unbounded (x - y)%num.
Proof. intros [-> | ->]; destruct y; cbn; unfold unbounded; tauto. Qed.

Lemma Calories_BMR_unbounded (h a : num) (g : Calories.Gender)
  (wu : WeightUnit) (hu : Calories.HeightUnit) :
  unbounded (Calories.calculateBMR PInf h a g wu hu).
Proof.
  unfold Calories.calculateBMR.
  assert (W : (Fin 10 * match wu with lbs => (PInf * Fin 0.453592)%num
                                 | kg => PInf end)%num = PInf)
    by (destruct wu; reflexivity).
  rewrite W.
  destruct g.
  - apply unbounded_add_l, unbounded_sub_l, unbounded_add_l. left; reflexivity.
  - apply unbounded_sub_l, unbounded_sub_l, unbounded_add_l. left; reflexivity.
Qed.

(** X27. The validation rejects NaN and numbers that are not positive, but
    not [Infinity] (which an overflowing JSON number such as 1e999 parses
    to).  With an infinite weight every accepted request gets infinite
    protein and fat and NaN carbohydrates, whatever the other fields. *)
Theorem Calories_POST_infinite_weight
  (body : Calories.CalculateRequest) (r : Calories.Results) :
  Calories.weight body = PInf ->
  Calories.POST body = Calories.Ok r ->
  Calories.r_protein r = PInf /\ Calories.r_fat r = PInf /\
  Calories.r_carbs r = NaN /\ unbounded (Calories.r_targetCalories r).
Proof.
  intros Hw. unfold Calories.POST. rewrite Hw.
  destruct (existsb _ _); [discriminate|].
  destruct (Calories.gender body) as [ge|]; [|discriminate].
  destruct (Calories.exerciseFrequency body) as [fr|]; [|discriminate].
  destruct (Calories.goal body) as [go|]; [|discriminate].
  destruct (Calories.exerciseType body) as [ty|]; [|discriminate].
  destruct (Calories.weightUnit body) as [wu|]; [|discriminate].
  destruct (Calories.heightUnit body) as [hu|]; [|discriminate].
  intro H. injection H as <-.
  cbn [Calories.r_protein Calories.r_fat Calories.r_carbs
         Calories.r_targetCalories].
  assert (T : unbounded
                (Calories.calculateTargetCalories
                   (Calories.calculateTDEE
                      (Calories.calculateBMR PInf (Calories.height body)
                         (Calories.age body) ge wu hu)
                      (Calories.calculateTEF
                         (Calories.calculateBMR PInf (Calories.height body)
                            (Calories.age body) ge wu hu))
                      (Calories.calculateEEE PInf wu fr)
                      Calories.calculateNEAT) go)).
  { unfold Calories.calculateTargetCalories, Calories.calculateTDEE.
    do 4 apply unbounded_add_l. apply Calories_BMR_unbounded. }
  split; [destruct wu, ty, fr; reflexivity|].
  split; [destruct wu, ty, fr; reflexivity|].
  split; [|exact T].
  destruct T as [-> | ->]; destruct wu, ty, fr; reflexivity.
Qed.

Lemma Calories_POST_infinite_weight_witness :
  exists r,
    Calories.POST
      {| Calories.age := Fin 30; Calories.gender := Some Calories.female;
         Calories.weight := PInf; Calories.height := Fin 165;
         Calories.exerciseFrequency := Some Calories.freq2;
         Calories.goal := Some Calories.loseMin;
         Calories.exerciseType := Some Calories.endurance;
         Calories.weightUnit := Some kg;
         Calories.heightUnit := Some Calories.cm |} = Calories.Ok r /\
    Calories.r_carbs r = NaN.
Proof.
  eexists. split; [reflexivity|].
  eapply (Calories_POST_infinite_weight
            {| Calories.age := Fin 30; Calories.gender := Some Calories.female;
               Calories.weight := PInf; Calories.height := Fin 165;
               Calories.exerciseFrequency := Some Calories.freq2;
               Calories.goal := Some Calories.loseMin;
               Calories.exerciseType := Some Calories.endurance;
               Calories.weightUnit := Some kg;
               Calories.heightUnit := Some Calories.cm |});
    reflexivity.
Defined.
